(** * mcp-hub-mcp: the connection manager, its tool filters and its pattern matcher

    A shallow embedding of [src/server-manager.ts] (class [McpServerManager]
    with its private helpers), with the properties of the specification
    stated over it.

    Strings are modelled by [string]; a character stands for one code unit of
    the JavaScript string, restricted to the 8-bit range.  Every [await] of
    the source is taken in program order: the manager is driven by one caller
    at a time. *)

From Stdlib Require Import Ascii String NArith Bool.
From stdpp Require Import gmap strings list.

Set Default Proof Using "Type".
Set Warnings "-register-all".

(* stdpp keeps [String.append] folded; the proofs below compute with it. *)
#[local] Arguments String.append !_ _ / : simpl nomatch.

(* ===================================================================== *)
(** * Strings, as the source uses them                                    *)
(* ===================================================================== *)

Module Js.

(** [s.startsWith(p)] *)
Fixpoint startsWith (s p : string) : bool :=
  match p, s with
  | EmptyString, _ => true
  | String c p', String d s' => Ascii.eqb c d && startsWith s' p'
  | String _ _, EmptyString => false
  end.

(** [s.endsWith(c)] for a one-character string [c] *)
Fixpoint endsWith (s : string) (c : ascii) : bool :=
  match s with
  | EmptyString => false
  | String d EmptyString => Ascii.eqb d c
  | String _ s' => endsWith s' c
  end.

(** [s.replace(/[...]/g, r)] for a regular expression that matches one
    character at a time: [hit] says which characters match, [r] gives the
    replacement of a matched character (the source uses the replacement
    patterns ['\\$&'], ['\\.'], ['.*'] and ['.']). *)
Fixpoint replaceAll (hit : ascii -> bool) (r : ascii -> string) (s : string) : string :=
  match s with
  | EmptyString => EmptyString
  | String c s' => (if hit c then r c else String c EmptyString) +:+ replaceAll hit r s'
  end.

(** Truthiness of a string: the empty string is falsy. *)
Definition truthy (s : string) : bool :=
  match s with EmptyString => false | _ => true end.

(** [a || b] on optional strings *)
Definition orElse (a b : option string) : option string :=
  match a with
  | Some s => if truthy s then Some s else b
  | None => b
  end.

End Js.

(* ===================================================================== *)
(** * Regular expressions: the fragment [matchesPattern] can build        *)
(* ===================================================================== *)

Module Regex.

Inductive Atom : Type :=
| AChar (c : ascii)      (* a pattern character, or an identity escape *)
| ADot.                  (* [.] *)

Inductive Term : Type :=
| TAssertStart           (* [^] *)
| TAssertEnd             (* [$] *)
| TAtom (a : Atom)
| TStar (a : Atom).      (* [a*] *)

Inductive Token : Type :=
| KStart | KEnd | KStar | KAtom (a : Atom).

(** SyntaxCharacter of the ECMAScript pattern grammar. *)
Definition isSyntaxCharacter (c : ascii) : bool :=
  existsb (Ascii.eqb c)
    ["^"; "$"; "\"; "."; "*"; "+"; "?"; "("; ")"; "["; "]"; "{"; "}"; "|"]%char.

(** Reading the pattern source.  [None] stands for a construct outside the
    fragment (groups, classes, alternation, the quantifiers [+ ? {}], class
    escapes): [regexPattern_parses] below shows that [matchesPattern] never
    builds one. *)
Fixpoint lex (s : string) : option (list Token) :=
  match s with
  | EmptyString => Some []
  | String c rest =>
      if Ascii.eqb c "\" then
        match rest with
        | String d rest' =>
            if isSyntaxCharacter d
            then cons (KAtom (AChar d)) <$> lex rest'
            else None
        | EmptyString => None
        end
      else if Ascii.eqb c "^" then cons KStart <$> lex rest
      else if Ascii.eqb c "$" then cons KEnd <$> lex rest
      else if Ascii.eqb c "." then cons (KAtom ADot) <$> lex rest
      else if Ascii.eqb c "*" then cons KStar <$> lex rest
      else if isSyntaxCharacter c then None
      else cons (KAtom (AChar c)) <$> lex rest
  end.

Fixpoint quantify (ks : list Token) : option (list Term) :=
  match ks with
  | [] => Some []
  | KAtom a :: KStar :: ks' => cons (TStar a) <$> quantify ks'
  | KAtom a :: ks' => cons (TAtom a) <$> quantify ks'
  | KStart :: ks' => cons TAssertStart <$> quantify ks'
  | KEnd :: ks' => cons TAssertEnd <$> quantify ks'
  | KStar :: _ => None
  end.

(** [new RegExp(source, 'i')] *)
Definition compile (source : string) : option (list Term) :=
  lex source ≫= quantify.

Definition code (c : ascii) : N := N_of_ascii c.

(** Canonicalize of a case-insensitive, non-unicode pattern: the upper-case
    form of the code unit when that is again one code unit.  Below 256 that
    is [a-z], and the Latin-1 letters E0..FE without F7; the upper-case
    forms of B5 and FF lie outside the range and are the image of no other
    8-bit code unit, DF has a two-unit upper-case form and stays. *)
Definition canonicalize (c : ascii) : ascii :=
  let n := code c in
  if ((97 <=? n) && (n <=? 122))%N then ascii_of_N (n - 32)
  else if ((224 <=? n) && (n <=? 254) && negb (n =? 247))%N then ascii_of_N (n - 32)
  else c.

(** LineTerminator: LF and CR (U+2028 and U+2029 are outside the range). *)
Definition isLineTerminator (c : ascii) : bool :=
  ((code c =? 10) || (code c =? 13))%N.

Definition atomMatches (a : Atom) (c : ascii) : bool :=
  match a with
  | AChar p => Ascii.eqb (canonicalize p) (canonicalize c)
  | ADot => negb (isLineTerminator c)
  end.

(** Backtracking matcher: do the terms match a prefix of [s]?  [atStart]
    says whether [s] is the whole input (no multiline flag). *)
Fixpoint matchFrom (ts : list Term) : bool -> string -> bool :=
  match ts with
  | [] => fun _ _ => true
  | TAssertStart :: ts' => fun atStart s => atStart && matchFrom ts' atStart s
  | TAssertEnd :: ts' => fun atStart s =>
      match s with
      | EmptyString => matchFrom ts' atStart s
      | String _ _ => false
      end
  | TAtom a :: ts' => fun _ s =>
      match s with
      | String c s' => atomMatches a c && matchFrom ts' false s'
      | EmptyString => false
      end
  | TStar a :: ts' =>
      fix star (atStart : bool) (s : string) : bool :=
        match s with
        | String c s' =>
            (atomMatches a c && star false s') || matchFrom ts' atStart s
        | EmptyString => matchFrom ts' atStart s
        end
  end.

(** Search from every start index, as [exec] does without the sticky flag. *)
Fixpoint searchFrom (ts : list Term) (atStart : bool) (s : string) : bool :=
  matchFrom ts atStart s ||
  match s with
  | String _ s' => searchFrom ts false s'
  | EmptyString => false
  end.

(** [regex.test(s)] *)
Definition test (ts : list Term) (s : string) : bool := searchFrom ts true s.

End Regex.

(* ===================================================================== *)
(** * Pattern Matcher                                                     *)
(* ===================================================================== *)

(** The character class [[+?^${}()|[\]\\]] of the first [replace]. *)
Definition isEscapedChar (c : ascii) : bool :=
  existsb (Ascii.eqb c)
    ["+"; "?"; "^"; "$"; "{"; "}"; "("; ")"; "|"; "["; "]"; "\"]%char.

(** [regexPattern], the chain of four [replace] calls. *)
Definition regexPattern (pattern : string) : string :=
  let s1 := Js.replaceAll isEscapedChar (fun c => String "\" (String c EmptyString)) pattern in
  let s2 := Js.replaceAll (Ascii.eqb ".") (fun _ => "\.") s1 in
  let s3 := Js.replaceAll (Ascii.eqb "*") (fun _ => ".*") s2 in
  Js.replaceAll (Ascii.eqb "?") (fun _ => ".") s3.

(** [`^${regexPattern}$`] *)
Definition regexSource (pattern : string) : string :=
  "^" +:+ regexPattern pattern +:+ "$".

(** [McpServerManager.matchesPattern].  A pattern source that does not
    compile would make [new RegExp] throw; [regexPattern_parses] shows this
    branch is never taken. *)
Definition matchesPattern (toolName pattern : string) : bool :=
  if Js.endsWith pattern "." then Js.startsWith toolName pattern
  else
    match Regex.compile (regexSource pattern) with
    | Some regex => Regex.test regex toolName
    | None => false
    end.

(* ===================================================================== *)
(** * Data model                                                          *)
(* ===================================================================== *)

(** Values that the manager passes through without looking inside. *)
Inductive JsValue : Type :=
| JNull
| JBool (b : bool)
| JNumber (z : Z)
| JString (s : string)
| JArray (items : list JsValue)
| JObject (fields : list (string * JsValue)).

Module Types.

(** Modelled from the spec: [src/types.ts] is not among the sources.  The
    filter rule set is the [{include?, exclude?}] shape of the
    configuration document. *)
Record ToolFilterConfig : Type := {
  include : option (list string);
  exclude : option (list string);
}.

(** Modelled from the spec: [src/types.ts] is not among the sources.  One
    entry of [mcpServers]:
    [{command, args?, env?, filters?}]. *)
Record McpServerConfig : Type := {
  command : string;
  args : option (list string);
  env : option (gmap string string);
  filters : option ToolFilterConfig;
}.

(** Modelled from the spec: [src/types.ts] is not among the sources.  The
    configuration document; [mcpServers] is held as [Object.entries] lists
    it. *)
Record McpConfig : Type := {
  mcpServers : option (list (string * McpServerConfig));
  globalFilters : option ToolFilterConfig;
}.

End Types.

Import Types.

(** A tool descriptor: the filters look at [name] only.  [name] is [None]
    when the descriptor has no such field. *)
Record Tool : Type := {
  name : option string;
  metadata : list (string * JsValue);
}.

(** What [client.listTools()] resolves to. *)
Inductive ToolsResponse : Type :=
| OtherShape (v : JsValue)   (* falsy, or no array under [tools] *)
| ToolList (tools : list Tool) (others : list (string * JsValue)).

(** [new StdioClientTransport({command, args, env})] *)
Record Transport : Type := {
  t_command : string;
  t_args : list string;
  t_env : gmap string string;
}.

(** [new Client({name, version})], with the transport it is connected over. *)
Record Client : Type := {
  clientName : string;
  clientVersion : string;
  clientTransport : Transport;
}.

(** A [Map] with string keys: [list] in insertion order, one pair per key. *)
Module JsMap.
Section WithValue.
Context {V : Type}.

Fixpoint get (m : list (string * V)) (k : string) : option V :=
  match m with
  | [] => None
  | (k', v) :: m' => if String.eqb k' k then Some v else get m' k
  end.

Definition has (m : list (string * V)) (k : string) : bool :=
  match get m k with Some _ => true | None => false end.

(** [set] keeps the position of a key that is already there. *)
Fixpoint set (m : list (string * V)) (k : string) (v : V) : list (string * V) :=
  match m with
  | [] => [(k, v)]
  | (k', v') :: m' =>
      if String.eqb k' k then (k', v) :: m' else (k', v') :: set m' k v
  end.

(** [delete] leaves no pair under the key (there is at most one). *)
Fixpoint delete (m : list (string * V)) (k : string) : list (string * V) :=
  match m with
  | [] => []
  | (k', v') :: m' =>
      if String.eqb k' k then delete m' k else (k', v') :: delete m' k
  end.

Definition keys (m : list (string * V)) : list string := map fst m.

End WithValue.
End JsMap.

(** The state of a [McpServerManager]. *)
Record McpServerManager : Type := {
  clients : list (string * Client);
  configPath : option string;
  serverFilters : gmap string ToolFilterConfig;
  globalFilters : option ToolFilterConfig;
}.

Definition with_clients (cs : list (string * Client)) (m : McpServerManager) :=
  {| clients := cs; configPath := configPath m;
     serverFilters := serverFilters m; globalFilters := globalFilters m |}.

Definition with_serverFilters (fs : gmap string ToolFilterConfig) (m : McpServerManager) :=
  {| clients := clients m; configPath := configPath m;
     serverFilters := fs; globalFilters := globalFilters m |}.

Definition with_globalFilters (g : option ToolFilterConfig) (m : McpServerManager) :=
  {| clients := clients m; configPath := configPath m;
     serverFilters := serverFilters m; globalFilters := g |}.

(** The errors the manager throws, by message template. *)
Inductive HubError : Type :=
| AlreadyConnected (serverName : string)
| NotConnected (serverName : string)
| ConnectFailed (serverName cause : string)
| DisconnectFailed (serverName cause : string)
| ConfigPathMissing
| ConfigLoadFailed (path cause : string)
| Rejected (cause : string).   (* an error of the client library, passed on *)

Definition message (e : HubError) : string :=
  match e with
  | AlreadyConnected n => "Already connected to server '" +:+ n +:+ "'."
  | NotConnected n => "Not connected to server '" +:+ n +:+ "'."
  | ConnectFailed n c => "Failed to connect to server '" +:+ n +:+ "': " +:+ c
  | DisconnectFailed n c => "Failed to disconnect from server '" +:+ n +:+ "': " +:+ c
  | ConfigPathMissing => "Configuration file path not specified."
  | ConfigLoadFailed p c => "Failed to load configuration file '" +:+ p +:+ "': " +:+ c
  | Rejected c => c
  end.

(** What the manager does to the outside, in order. *)
Inductive Event : Type :=
| ConsoleError (text : string)
| ConsoleWarn (text : string)
| ClientConnect (c : Client)
| ClientClose (c : Client)
| ClientListTools (c : Client)
| ClientCallTool (c : Client) (toolName : string) (arguments : list (string * JsValue)).

(** The outside, as far as the manager can see it.  An outcome [Some msg] or
    [inl msg] is a rejection whose error carries the message [msg]. *)
Record World : Type := {
  processEnv : gmap string string;
  findConfigPath : option string;
  readConfig : string -> string + McpConfig;   (* [readFileSync], [JSON.parse] *)
  connectOutcome : Client -> option string;    (* [client.connect(transport)] *)
  closeOutcome : Client -> option string;      (* [client.close()] *)
  listToolsOutcome : Client -> string + ToolsResponse;
  callToolOutcome :
    Client -> string -> list (string * JsValue) -> string + JsValue;
}.

(* ===================================================================== *)
(** * The monad of the manager's methods                                  *)
(* ===================================================================== *)

Inductive Completion (A : Type) : Type :=
| Normal (a : A)
| Throw (e : HubError).
Arguments Normal {A} a.
Arguments Throw {A} e.

Definition M (A : Type) : Type :=
  McpServerManager -> Completion A * McpServerManager * list Event.

Definition ret {A} (a : A) : M A := fun m => (Normal a, m, []).

Definition bind {A B} (x : M A) (k : A -> M B) : M B :=
  fun m =>
    match x m with
    | (Normal a, m1, ev1) =>
        match k a m1 with
        | (r, m2, ev2) => (r, m2, ev1 ++ ev2)
        end
    | (Throw e, m1, ev1) => (Throw e, m1, ev1)
    end.

Definition throw {A} (e : HubError) : M A := fun m => (Throw e, m, []).

(** [try { body } catch (error) { handler }] *)
Definition tryCatch {A} (body : M A) (handler : HubError -> M A) : M A :=
  fun m =>
    match body m with
    | (Normal a, m1, ev1) => (Normal a, m1, ev1)
    | (Throw e, m1, ev1) =>
        match handler e m1 with
        | (r, m2, ev2) => (r, m2, ev1 ++ ev2)
        end
    end.

Definition this : M McpServerManager := fun m => (Normal m, m, []).
Definition modify (f : McpServerManager -> McpServerManager) : M unit :=
  fun m => (Normal tt, f m, []).
Definition emit (e : Event) : M unit := fun m => (Normal tt, m, [e]).

#[global] Instance M_ret : MRet M := @ret.
#[global] Instance M_bind : MBind M := fun A B k x => bind x k.

(** [for (const x of xs) { await body(x) }] *)
Fixpoint forOf {A} (xs : list A) (body : A -> M unit) : M unit :=
  match xs with
  | [] => ret tt
  | x :: xs' => body x ;; forOf xs' body
  end.

(* ===================================================================== *)
(** * Filter Engine                                                       *)
(* ===================================================================== *)

(** [!tool.name]: no [name] field, or an empty name. *)
Definition nameless (tool : Tool) : bool :=
  match name tool with
  | Some n => negb (Js.truthy n)
  | None => true
  end.

(** [patterns.some(pattern => this.matchesPattern(tool.name, pattern))] *)
Definition somePattern (tool : Tool) (patterns : list string) : bool :=
  match name tool with
  | Some n => existsb (matchesPattern n) patterns
  | None => false
  end.

(** The callback of the include [filter]. *)
Definition includeKeeps (patterns : list string) (tool : Tool) : bool :=
  if nameless tool then false else somePattern tool patterns.

(** The callback of the exclude [filter]. *)
Definition excludeKeeps (patterns : list string) (tool : Tool) : bool :=
  if nameless tool then true else negb (somePattern tool patterns).

(** [list && list.length > 0] *)
Definition activeList (l : option (list string)) : option (list string) :=
  match l with
  | Some (p :: ps) => Some (p :: ps)
  | _ => None
  end.

(** [McpServerManager.filterToolsByConfig] *)
Definition filterToolsByConfig (tools : list Tool) (filterConfig : ToolFilterConfig)
  : list Tool :=
  match tools with
  | [] => tools
  | _ =>
      let filteredTools := tools in
      let filteredTools :=
        match activeList (include filterConfig) with
        | Some patterns => List.filter (includeKeeps patterns) filteredTools
        | None => filteredTools
        end in
      let filteredTools :=
        match activeList (exclude filterConfig) with
        | Some patterns => List.filter (excludeKeeps patterns) filteredTools
        | None => filteredTools
        end in
      filteredTools
  end.

(** The two stages of [applyFilters] on the array under [tools]. *)
Definition applyFiltersTo (this : McpServerManager) (tools : list Tool)
  (serverName : string) : list Tool :=
  let filteredTools := tools in
  let filteredTools :=
    match serverFilters this !! serverName with
    | Some serverFilters => filterToolsByConfig filteredTools serverFilters
    | None => filteredTools
    end in
  let filteredTools :=
    match globalFilters this with
    | Some globalFilters => filterToolsByConfig filteredTools globalFilters
    | None => filteredTools
    end in
  filteredTools.

(** [McpServerManager.applyFilters] *)
Definition applyFilters (this : McpServerManager) (tools : ToolsResponse)
  (serverName : string) : ToolsResponse :=
  match tools with
  | OtherShape v => OtherShape v
  | ToolList ts others => ToolList (applyFiltersTo this ts serverName) others
  end.

(* ===================================================================== *)
(** * Connection registry and hub manager                                 *)
(* ===================================================================== *)

Section Manager.

Variable w : World.

(** [McpServerManager.getClient] *)
Definition getClient (serverName : string) : M Client :=
  self ← this;
  match JsMap.get (clients self) serverName with
  | Some client => mret client
  | None => throw (NotConnected serverName)
  end.

(** The transport and the client [connectToServer] builds. *)
Definition newClient (serverName : string) (params : McpServerConfig) : Client :=
  let env :=
    match Types.env params with
    | Some overrides => overrides ∪ processEnv w
    | None => processEnv w
    end in
  {| clientName := "mcp-client-" +:+ serverName;
     clientVersion := "1.0.0";
     clientTransport :=
       {| t_command := command params;
          t_args := default [] (args params);
          t_env := env |} |}.

(** [McpServerManager.connectToServer] *)
Definition connectToServer (serverName : string) (params : McpServerConfig)
  : M unit :=
  self ← this;
  if JsMap.has (clients self) serverName
  then throw (AlreadyConnected serverName)
  else
    let client := newClient serverName params in
    emit (ClientConnect client) ;;
    match connectOutcome w client with
    | None =>
        modify (fun m => with_clients (JsMap.set (clients m) serverName client) m)
    | Some cause =>
        emit (ConsoleError
                ("Failed to connect to server '" +:+ serverName +:+ "': " +:+ cause)) ;;
        throw (ConnectFailed serverName cause)
    end.

(** [McpServerManager.listTools] *)
Definition listTools (serverName : string) : M ToolsResponse :=
  client ← getClient serverName;
  emit (ClientListTools client) ;;
  match listToolsOutcome w client with
  | inr tools =>
      self ← this;
      mret (applyFilters self tools serverName)
  | inl cause => throw (Rejected cause)
  end.

(** [McpServerManager.callTool] *)
Definition callTool (serverName toolName : string)
  (arguments : list (string * JsValue)) : M JsValue :=
  client ← getClient serverName;
  emit (ClientCallTool client toolName arguments) ;;
  match callToolOutcome w client toolName arguments with
  | inr result => mret result
  | inl cause => throw (Rejected cause)
  end.

(** [McpServerManager.getConnectedServers] *)
Definition getConnectedServers : M (list string) :=
  self ← this;
  mret (JsMap.keys (clients self)).

(** [McpServerManager.disconnectServer] *)
Definition disconnectServer (serverName : string) : M unit :=
  self ← this;
  match JsMap.get (clients self) serverName with
  | None => throw (NotConnected serverName)
  | Some client =>
      emit (ClientClose client) ;;
      match closeOutcome w client with
      | None =>
          modify (fun m => with_clients (JsMap.delete (clients m) serverName) m)
      | Some cause =>
          emit (ConsoleError
                  ("Failed to disconnect from server '" +:+ serverName +:+ "': "
                     +:+ cause)) ;;
          throw (DisconnectFailed serverName cause)
      end
  end.

(** [McpServerManager.disconnectAll] *)
Definition disconnectAll : M unit :=
  serverNames ← getConnectedServers;
  forOf serverNames disconnectServer.

(** [loadConfigFile] *)
Definition loadConfigFile (configPath : string) : M McpConfig :=
  match readConfig w configPath with
  | inr config => mret config
  | inl cause =>
      emit (ConsoleError ("Failed to load configuration file: " +:+ cause)) ;;
      throw (ConfigLoadFailed configPath cause)
  end.

(** The body of the loop of [loadFromConfig] over the server entries. *)
Definition loadEntry (entry : string * McpServerConfig) : M unit :=
  let '(serverName, serverConfig) := entry in
  self ← this;
  if JsMap.has (clients self) serverName then mret tt
  else
    tryCatch
      ((match filters serverConfig with
        | Some f =>
            modify (fun m =>
                      with_serverFilters (<[serverName := f]> (serverFilters m)) m)
        | None => mret tt
        end) ;;
       connectToServer serverName serverConfig)
      (fun error =>
         emit (ConsoleError
                 ("Failed to connect to server '" +:+ serverName
                    +:+ "' from configuration file: " +:+ message error))).

(** [McpServerManager.loadFromConfig] *)
Definition loadFromConfig (configPath' : option string) : M unit :=
  self ← this;
  match Js.orElse configPath' (configPath self) with
  | None => throw ConfigPathMissing
  | Some path =>
      if negb (Js.truthy path) then throw ConfigPathMissing
      else
        config ← loadConfigFile path;
        (match Types.globalFilters config with
         | Some g => modify (with_globalFilters (Some g))
         | None => mret tt
         end) ;;
        match mcpServers config with
        | None | Some [] =>
            emit (ConsoleWarn "No server information in configuration file.")
        | Some serverEntries => forOf serverEntries loadEntry
        end
  end.

(** The options of the constructor. *)
Record Options : Type := {
  o_configPath : option string;
  o_autoLoad : bool;
  o_globalFilters : option ToolFilterConfig;
}.

(** [new McpServerManager(options)], before the load it may start. *)
Definition newManager (options : option Options) : McpServerManager :=
  {| clients := [];
     configPath := Js.orElse (options ≫= o_configPath) (findConfigPath w);
     serverFilters := ∅;
     globalFilters := options ≫= o_globalFilters |}.

(** [new McpServerManager(options)] once the load it starts has settled.
    [loadFromConfig] is an async method called without [await]: what it
    throws rejects its promise and never reaches the [catch] of the
    constructor. *)
Definition construct (options : option Options) : McpServerManager * list Event :=
  let m0 := newManager options in
  let autoLoad := from_option o_autoLoad false options in
  match configPath m0 with
  | Some path =>
      if autoLoad && Js.truthy path
      then let '(_, m1, ev) := loadFromConfig (Some path) m0 in (m1, ev)
      else (m0, [])
  | None => (m0, [])
  end.

End Manager.

(* ===================================================================== *)
(** * Start-up and the two tools of the hub                               *)
(* ===================================================================== *)

Module JsLib.

(** [l.indexOf(x)], with [None] for [-1]; on strings
    [l.findIndex(arg => arg === x)] is the same. *)
Fixpoint indexOf (l : list string) (x : string) : option nat :=
  match l with
  | [] => None
  | y :: l' => if String.eqb y x then Some 0 else S <$> indexOf l' x
  end.

(** [s.split(sep)] for a one-character separator. *)
Fixpoint split (sep : ascii) (s : string) : list string :=
  match s with
  | EmptyString => [EmptyString]
  | String c s' =>
      if Ascii.eqb c sep then EmptyString :: split sep s'
      else
        match split sep s' with
        | piece :: pieces => String c piece :: pieces
        | [] => [String c EmptyString]
        end
  end.

(** [pieces.join(sep)] *)
Fixpoint join (sep : ascii) (pieces : list string) : string :=
  match pieces with
  | [] => EmptyString
  | [piece] => piece
  | piece :: pieces' => piece +:+ String sep (join sep pieces')
  end.

(** The argument that follows the first [flag] of [argv]:
    [idx !== -1 && idx < argv.length - 1], then [argv[idx + 1]]. *)
Definition argAfter (argv : list string) (flag : string) : option string :=
  match indexOf argv flag with
  | Some idx => if idx <? length argv - 1 then argv !! (idx + 1) else None
  | None => None
  end.

End JsLib.

Module Startup.

(** What [findConfigPath] reads of the process and of the file system. *)
Record Process : Type := {
  envConfigPath : option string;         (* [process.env.MCP_CONFIG_PATH] *)
  argv : list string;                    (* [process.argv] *)
  cwd : string;                          (* [process.cwd()] *)
  pathJoin : string -> string -> string; (* [path.join] *)
  existsSync : string -> bool;           (* [fs.existsSync] *)
}.

(** [defaultPaths] *)
Definition defaultPaths (p : Process) : list string :=
  ["./mcp-config.json"; pathJoin p (cwd p) "mcp-config.json"].

(** [findConfigPath] *)
Definition findConfigPath (p : Process) : option string :=
  let fromEnv :=
    match envConfigPath p with
    | Some path => if Js.truthy path then Some path else None
    | None => None
    end in
  match fromEnv with
  | Some path => Some path
  | None =>
      match JsLib.argAfter (argv p) "--config-path" with
      | Some path => Some path
      | None => List.find (existsSync p) (defaultPaths p)
      end
  end.

(** [parseFilterArgs] of the entry point. *)
Definition parseFilterArgs (argv : list string) : option ToolFilterConfig :=
  let include := JsLib.split "," <$> JsLib.argAfter argv "--include-tools" in
  let exclude := JsLib.split "," <$> JsLib.argAfter argv "--exclude-tools" in
  match include, exclude with
  | None, None => None
  | _, _ => Some {| Types.include := include; Types.exclude := exclude |}
  end.

(** [new McpServerManager({autoLoad: true, globalFilters})] of the entry
    point, in a world whose configuration path is the one [findConfigPath]
    finds. *)
Definition serverManager (w : World) (argv : list string)
  : McpServerManager * list Event :=
  construct w (Some {| o_configPath := None; o_autoLoad := true;
                       o_globalFilters := parseFilterArgs argv |}).

End Startup.

(** One property of [allTools]: the listing of a server, or
    [{error: ...}]. *)
Inductive ToolsEntry : Type :=
| Listing (toolsResponse : ToolsResponse)
| Failure (error : string).

(** The text a tool of the hub answers with.  [JSON.stringify] is not
    modelled: the text is named by what is serialised. *)
Inductive Content : Type :=
| Text (text : string)
| JsonOfAllTools (assignments : list (string * ToolsEntry))
    (* [allTools] after [allTools[serverName] = ...] for each pair, in order *)
| JsonOfResult (result : JsValue).

Record HandlerResult : Type := {
  content : Content;
  isError : bool;
}.

Section Handlers.

Variable w : World.

(** The [try]/[catch] inside the loop of [list-all-tools]. *)
Definition toolsEntryFor (serverName : string) : M ToolsEntry :=
  tryCatch
    (toolsResponse ← listTools w serverName;
     mret (Listing toolsResponse))
    (fun error =>
       mret (Failure ("Failed to get tools list: " +:+ message error))).

(** The loop of [list-all-tools] over the connected servers. *)
Fixpoint collectAllTools (servers : list string) : M (list (string * ToolsEntry)) :=
  match servers with
  | [] => mret []
  | serverName :: servers' =>
      entry ← toolsEntryFor serverName;
      more ← collectAllTools servers';
      mret ((serverName, entry) :: more)
  end.

(** The handler of [list-all-tools]. *)
Definition listAllToolsHandler : M HandlerResult :=
  tryCatch
    (servers ← getConnectedServers;
     match servers with
     | [] => mret {| content := Text "No connected servers."; isError := false |}
     | _ =>
         allTools ← collectAllTools servers;
         mret {| content := JsonOfAllTools allTools; isError := false |}
     end)
    (fun error =>
       mret {| content :=
                 Text ("Failed to get tools list from all servers: "
                         +:+ message error);
               isError := true |}).

(** The handler of [call-tool]. *)
Definition callToolHandler (serverName toolName : string)
  (toolArgs : list (string * JsValue)) : M HandlerResult :=
  tryCatch
    (result ← callTool w serverName toolName toolArgs;
     mret {| content := JsonOfResult result; isError := false |})
    (fun error =>
       mret {| content := Text ("Tool call failed: " +:+ message error);
               isError := true |}).

End Handlers.

(* ===================================================================== *)
(** * Definitions used to state the properties                            *)
(* ===================================================================== *)

(** What one pattern character contributes to the compiled expression. *)
Definition charTokens (c : ascii) : list Regex.Token :=
  if Ascii.eqb c "*" then [Regex.KAtom Regex.ADot; Regex.KStar]
  else if Ascii.eqb c "?" || Ascii.eqb c "." then [Regex.KAtom (Regex.AChar ".")]
  else [Regex.KAtom (Regex.AChar c)].

Definition charTerm (c : ascii) : Regex.Term :=
  if Ascii.eqb c "*" then Regex.TStar Regex.ADot
  else if Ascii.eqb c "?" || Ascii.eqb c "." then Regex.TAtom (Regex.AChar ".")
  else Regex.TAtom (Regex.AChar c).

Fixpoint globTokens (pattern : string) : list Regex.Token :=
  match pattern with
  | EmptyString => []
  | String c s => charTokens c ++ globTokens s
  end.

Fixpoint globTerms (pattern : string) : list Regex.Term :=
  match pattern with
  | EmptyString => []
  | String c s => charTerm c :: globTerms s
  end.

Definition startsWithStar (ks : list Regex.Token) : bool :=
  match ks with Regex.KStar :: _ => true | _ => false end.

(** The first stage of [applyFilters]: the rules stored for the connection. *)
Definition perConnectionStage (this : McpServerManager) (tools : list Tool)
  (serverName : string) : list Tool :=
  match serverFilters this !! serverName with
  | Some rules => filterToolsByConfig tools rules
  | None => tools
  end.

(** A small world and a few descriptors, to run the methods on. *)
Definition tool_foo : Tool := {| name := Some "foo"; metadata := [] |}.
Definition tool_bar : Tool := {| name := Some "bar"; metadata := [] |}.
Definition tool_anonymous : Tool :=
  {| name := None; metadata := [("description", JString "no name")] |}.

Definition rules (inc exc : option (list string)) : ToolFilterConfig :=
  {| include := inc; exclude := exc |}.

Definition launch (cmd : string) (rs : option ToolFilterConfig) : McpServerConfig :=
  {| command := cmd; args := None; env := None; filters := rs |}.

(** Every child answers; [connectFails] and [closeFails] name the clients
    whose [connect] and [close] reject. *)
Definition world (connectFails closeFails : list string) : World :=
  {| processEnv := ∅;
     findConfigPath := None;
     readConfig := fun _ => inl "ENOENT";
     connectOutcome := fun c =>
       if existsb (String.eqb (clientName c)) connectFails
       then Some "spawn ENOENT" else None;
     closeOutcome := fun c =>
       if existsb (String.eqb (clientName c)) closeFails
       then Some "close failed" else None;
     listToolsOutcome := fun _ => inr (ToolList [tool_foo; tool_bar] []);
     callToolOutcome := fun _ toolName _ => inr (JString toolName) |}.

Definition emptyManager : McpServerManager :=
  {| clients := []; configPath := None; serverFilters := ∅; globalFilters := None |}.

(** The world [w] with a configuration document that reads as [doc]. *)
Definition withConfig (doc : McpConfig) (w : World) : World :=
  {| processEnv := processEnv w;
     findConfigPath := findConfigPath w;
     readConfig := fun _ => inr doc;
     connectOutcome := connectOutcome w;
     closeOutcome := closeOutcome w;
     listToolsOutcome := listToolsOutcome w;
     callToolOutcome := callToolOutcome w |}.


(** The character a pattern character other than [*] stands for. *)
Definition literalOf (c : ascii) : ascii :=
  if Ascii.eqb c "?" then "."%char else c.

(** The names a glob pattern accepts, read off the expression it compiles
    to: [*] takes any run of characters that are not line terminators, any
    other pattern character takes one character with the same canonical form
    as its literal. *)
Inductive globMatches : string -> string -> Prop :=
| glob_end : globMatches "" ""
| glob_star_none (p n : string) :
    globMatches p n -> globMatches (String "*" p) n
| glob_star_more (p : string) (c : ascii) (n : string) :
    Regex.isLineTerminator c = false ->
    globMatches (String "*" p) n -> globMatches (String "*" p) (String c n)
| glob_char (c d : ascii) (p n : string) :
    c <> "*"%char ->
    Regex.canonicalize (literalOf c) = Regex.canonicalize d ->
    globMatches p n -> globMatches (String c p) (String d n).

(** A string, character by character in canonical form. *)
Fixpoint canonical (s : string) : string :=
  match s with
  | EmptyString => EmptyString
  | String c s' => String (Regex.canonicalize c) (canonical s')
  end.

Fixpoint noLineTerminator (s : string) : bool :=
  match s with
  | EmptyString => true
  | String c s' => negb (Regex.isLineTerminator c) && noLineTerminator s'
  end.

(** A pattern without the wildcards [*] and [?]. *)
Fixpoint plainPattern (s : string) : bool :=
  match s with
  | EmptyString => true
  | String c s' => negb (Ascii.eqb c "*") && negb (Ascii.eqb c "?") && plainPattern s'
  end.

(** Does a tool pass one rule set? *)
Definition keeps (filterConfig : ToolFilterConfig) (tool : Tool) : bool :=
  match activeList (include filterConfig) with
  | Some patterns => includeKeeps patterns tool
  | None => true
  end
  &&
  match activeList (exclude filterConfig) with
  | Some patterns => excludeKeeps patterns tool
  | None => true
  end.

(** The handles a load adds to the clients [cl]: one for each entry whose
    name is free and whose session can be established, in document order. *)
Definition newHandles (w : World) (cl : list (string * Client))
  (entries : list (string * McpServerConfig)) : list (string * Client) :=
  omap (fun entry : string * McpServerConfig =>
          if JsMap.has cl entry.1 then None
          else
            match connectOutcome w (newClient w entry.1 entry.2) with
            | None => Some (entry.1, newClient w entry.1 entry.2)
            | Some _ => None
            end) entries.

(** The registry holds one handle per name. *)
Definition wellFormed (m : McpServerManager) : Prop :=
  NoDup (JsMap.keys (clients m)).

(** The entry [list-all-tools] makes for a connected client. *)
Definition entryOf (w : World) (m : McpServerManager) (serverName : string)
  (client : Client) : ToolsEntry :=
  match listToolsOutcome w client with
  | inr tools => Listing (applyFilters m tools serverName)
  | inl cause => Failure ("Failed to get tools list: " +:+ cause)
  end.

(** A method keeps a property of the manager, however it completes. *)
Definition preserves {A : Type} (P : McpServerManager -> Prop) (x : M A) : Prop :=
  forall m : McpServerManager, P m -> P (x m).1.2.

(** The manager once the global rules of a document are taken over, and the
    server entries of a document. *)
Definition afterGlobal (config : McpConfig) (m : McpServerManager) : McpServerManager :=
  match Types.globalFilters config with
  | Some g => with_globalFilters (Some g) m
  | None => m
  end.

Definition entriesOf (config : McpConfig) : list (string * McpServerConfig) :=
  default [] (mcpServers config).

(** Does the character occur in the string? *)
Fixpoint contains (c : ascii) (s : string) : bool :=
  match s with
  | EmptyString => false
  | String d s' => Ascii.eqb d c || contains c s'
  end.

(** Running a method: unfold it and the monad down to the state it returns. *)
Ltac run :=
  cbv beta delta
    [getClient connectToServer listTools callTool getConnectedServers
       disconnectServer disconnectAll loadConfigFile loadEntry loadFromConfig
       mbind mret M_bind M_ret bind ret throw tryCatch this modify emit];
  cbn beta iota zeta.

(* ===================================================================== *)
(** * Pattern Matcher: properties                                         *)
(* ===================================================================== *)

Example ex_regexPattern_q : regexPattern "a?b" = "a\.b".
Proof. reflexivity. Qed.
Example ex_regexPattern_star : regexPattern "read*" = "read.*".
Proof. reflexivity. Qed.
Example ex_matches_prefix : matchesPattern "jira.search" "jira." = true.
Proof. reflexivity. Qed.
Example ex_matches_prefix_no : matchesPattern "search" "jira." = false.
Proof. reflexivity. Qed.
Example ex_matches_star : matchesPattern "READFILE" "read*" = true.
Proof. reflexivity. Qed.
Example ex_matches_literal : matchesPattern "a.b" "a.b" = true.
Proof. reflexivity. Qed.
Example ex_matches_literal_dot : matchesPattern "axb" "a.b" = false.
Proof. reflexivity. Qed.

Lemma string_app_assoc (a b c : string) : (a +:+ b) +:+ c = a +:+ (b +:+ c).
Proof.
  induction a as [|x a IH]; simpl; [reflexivity | now rewrite IH].
Qed.

Lemma replaceAll_app hit r (a b : string) :
  Js.replaceAll hit r (a +:+ b) = Js.replaceAll hit r a +:+ Js.replaceAll hit r b.
Proof.
  induction a as [|x a IH]; simpl; [reflexivity |].
  now rewrite IH, string_app_assoc.
Qed.

(** The four replacements work character by character. *)
Lemma regexPattern_app (a b : string) :
  regexPattern (a +:+ b) = regexPattern a +:+ regexPattern b.
Proof. unfold regexPattern; cbv zeta. now rewrite !replaceAll_app. Qed.

Lemma regexPattern_cons (c : ascii) (s : string) :
  regexPattern (String c s) = regexPattern (String c EmptyString) +:+ regexPattern s.
Proof. exact (regexPattern_app (String c EmptyString) s). Qed.

Lemma lex_char (c : ascii) (rest : string) :
  Regex.lex (regexPattern (String c EmptyString) +:+ rest)
  = app (charTokens c) <$> Regex.lex rest.
Proof.
  destruct c as [[] [] [] [] [] [] [] []];
    cbn; destruct (Regex.lex rest); reflexivity.
Qed.

Lemma lex_regexPattern (pattern rest : string) :
  Regex.lex (regexPattern pattern +:+ rest)
  = app (globTokens pattern) <$> Regex.lex rest.
Proof.
  induction pattern as [|c s IH]; simpl globTokens.
  - cbn. now destruct (Regex.lex rest).
  - rewrite regexPattern_cons, string_app_assoc, lex_char, IH.
    destruct (Regex.lex rest); simpl; [|reflexivity].
    now rewrite <- app_assoc.
Qed.

Lemma globTokens_no_star (pattern : string) (ks : list Regex.Token) :
  startsWithStar ks = false -> startsWithStar (globTokens pattern ++ ks) = false.
Proof.
  intros Hks. destruct pattern as [|c s]; simpl; [exact Hks |].
  unfold charTokens.
  destruct (Ascii.eqb c "*"); [reflexivity |].
  destruct (Ascii.eqb c "?" || Ascii.eqb c "."); reflexivity.
Qed.

Lemma quantify_atom (a : Regex.Atom) (ks : list Regex.Token) :
  startsWithStar ks = false ->
  Regex.quantify (Regex.KAtom a :: ks) = cons (Regex.TAtom a) <$> Regex.quantify ks.
Proof. destruct ks as [|[] ?]; intros H; try discriminate H; reflexivity. Qed.

Lemma quantify_globTokens (pattern : string) (ks : list Regex.Token) :
  startsWithStar ks = false ->
  Regex.quantify (globTokens pattern ++ ks)
  = app (globTerms pattern) <$> Regex.quantify ks.
Proof.
  intros Hks. induction pattern as [|c s IH]; simpl globTokens; simpl globTerms.
  - simpl. now destruct (Regex.quantify ks).
  - pose proof (globTokens_no_star s ks Hks) as Hns.
    unfold charTokens, charTerm.
    destruct (Ascii.eqb c "*").
    + simpl. rewrite IH. now destruct (Regex.quantify ks).
    + destruct (Ascii.eqb c "?" || Ascii.eqb c ".");
        cbn [app]; rewrite (quantify_atom _ _ Hns), IH;
        now destruct (Regex.quantify ks).
Qed.

(** [new RegExp] succeeds on every pattern, and what it builds is the
    pattern read as a glob in which [?] and [.] both stand for a dot. *)
Lemma regexPattern_parses (pattern : string) :
  Regex.compile (regexSource pattern)
  = Some (Regex.TAssertStart :: globTerms pattern ++ [Regex.TAssertEnd]).
Proof.
  unfold Regex.compile, regexSource.
  change (Regex.lex ("^" +:+ regexPattern pattern +:+ "$"))
    with (cons Regex.KStart <$> Regex.lex (regexPattern pattern +:+ "$")).
  rewrite lex_regexPattern. cbn [Regex.lex fmap option_fmap option_map mbind option_bind].
  change (Regex.lex "$") with (Some [Regex.KEnd]).
  cbn. rewrite quantify_globTokens by reflexivity. reflexivity.
Qed.

(** An expression that opens with [^] matches at the first index only. *)
Lemma searchFrom_anchored (ts : list Regex.Term) (s : string) :
  Regex.searchFrom (Regex.TAssertStart :: ts) false s = false.
Proof. induction s as [|c s IH]; simpl; [reflexivity | exact IH]. Qed.

Lemma test_anchored (ts : list Regex.Term) (s : string) :
  Regex.test (Regex.TAssertStart :: ts) s = Regex.matchFrom ts true s.
Proof.
  unfold Regex.test. destruct s as [|c s]; simpl.
  - now rewrite orb_false_r.
  - now rewrite searchFrom_anchored, orb_false_r.
Qed.

Lemma canonicalize_dot (c : ascii) :
  Ascii.eqb (Regex.canonicalize ".") (Regex.canonicalize c) = true <-> c = "."%char.
Proof.
  destruct c as [[] [] [] [] [] [] [] []]; vm_compute; split; congruence.
Qed.

(** C1 (the code departs from the claim).  [matchesPattern] does not treat
    [?] as one arbitrary character.  The first [replace] escapes [?] together
    with the other special characters, so the last [replace] turns the escaped
    [\?] into [\.]: a [?] of the pattern matches a literal dot and nothing
    else.  [matches("x", "?")] is false (the claim says true),
    [matches("xx", "?")] is false, the only name that [?] matches is ["."],
    and inside any pattern [?] builds the same expression as [.]. *)
Theorem matchesPattern_question_mark_is_literal_dot :
  matchesPattern "x" "?" = false /\
  matchesPattern "xx" "?" = false /\
  (forall toolName : string, matchesPattern toolName "?" = true <-> toolName = ".") /\
  (forall pre post : string,
      regexPattern (pre +:+ "?" +:+ post) = regexPattern (pre +:+ "." +:+ post)).
Proof.
  split; [reflexivity |]. split; [reflexivity |]. split.
  - intros toolName. unfold matchesPattern.
    change (Js.endsWith "?" ".") with false. cbv iota.
    rewrite regexPattern_parses. cbn [globTerms charTerm app].
    change (charTerm "?") with (Regex.TAtom (Regex.AChar ".")).
    rewrite test_anchored.
    destruct toolName as [|c [|d rest]]; cbn [Regex.matchFrom].
    + split; discriminate.
    + rewrite andb_true_r. unfold Regex.atomMatches. rewrite canonicalize_dot.
      split; [now intros -> | now intros [= ->]].
    + rewrite andb_false_r. split; discriminate.
  - intros pre post. rewrite !regexPattern_app. reflexivity.
Qed.

(* ===================================================================== *)
(** * Filter Engine: properties                                           *)
(* ===================================================================== *)

Lemma filterToolsByConfig_In (tools : list Tool) (cfg : ToolFilterConfig) (t : Tool) :
  In t (filterToolsByConfig tools cfg) -> In t tools.
Proof.
  unfold filterToolsByConfig. destruct tools as [|t0 ts]; [tauto |].
  destruct (activeList (include cfg)), (activeList (exclude cfg));
    intros H; repeat (apply filter_In in H; destruct H as [H _]); exact H.
Qed.

Lemma filterToolsByConfig_nil (cfg : ToolFilterConfig) :
  filterToolsByConfig [] cfg = [].
Proof. reflexivity. Qed.

(** On a list that is not empty the method is the two [filter] calls. *)
Lemma filterToolsByConfig_unfold (tools : list Tool) (cfg : ToolFilterConfig) :
  filterToolsByConfig tools cfg
  = let included :=
      match activeList (include cfg) with
      | Some patterns => List.filter (includeKeeps patterns) tools
      | None => tools
      end in
    match activeList (exclude cfg) with
    | Some patterns => List.filter (excludeKeeps patterns) included
    | None => included
    end.
Proof.
  destruct tools as [|t ts]; [|reflexivity].
  cbn. destruct (activeList (include cfg)), (activeList (exclude cfg)); reflexivity.
Qed.

Lemma excludeKeeps_nameless (patterns : list string) (tool : Tool) :
  nameless tool = true -> excludeKeeps patterns tool = true.
Proof. unfold excludeKeeps. now intros ->. Qed.

Lemma includeKeeps_nameless (patterns : list string) (tool : Tool) :
  nameless tool = true -> includeKeeps patterns tool = false.
Proof. unfold includeKeeps. now intros ->. Qed.

(** C4.  [applyFilters] runs the per-connection rules first and the global
    rules on what they leave: the final list is the global stage applied to
    the output of the per-connection stage, every tool of the final list is a
    tool the per-connection stage kept (so a tool it dropped is absent,
    whatever the global rules are), and when the per-connection rules exclude
    ["foo"] a tool named ["foo"] is absent from the final list for every
    global rule set, among them the one whose include list is ["foo"]. *)
Theorem applyFilters_per_connection_stage_first
  (this : McpServerManager) (serverName : string) (tools : list Tool)
  (others : list (string * JsValue)) :
  applyFilters this (ToolList tools others) serverName
  = ToolList
      (match globalFilters this with
       | Some rules => filterToolsByConfig (perConnectionStage this tools serverName) rules
       | None => perConnectionStage this tools serverName
       end) others
  /\ (forall tool : Tool,
         ~ In tool (perConnectionStage this tools serverName) ->
         ~ In tool (applyFiltersTo this tools serverName))
  /\ (forall (rules : ToolFilterConfig) (tool : Tool),
         serverFilters this !! serverName = Some rules ->
         exclude rules = Some ["foo"] ->
         name tool = Some "foo" ->
         ~ In tool (applyFiltersTo this tools serverName)).
Proof.
  assert (Hsub : forall tool, In tool (applyFiltersTo this tools serverName) ->
                              In tool (perConnectionStage this tools serverName)).
  { intros tool. unfold applyFiltersTo, perConnectionStage. cbv zeta.
    destruct (globalFilters this); [apply filterToolsByConfig_In | tauto]. }
  split; [reflexivity |]. split.
  - intros tool Hout Hin. exact (Hout (Hsub tool Hin)).
  - intros rules tool Hrules Hex Hname Hin. apply Hsub in Hin.
    unfold perConnectionStage in Hin. rewrite Hrules in Hin.
    rewrite filterToolsByConfig_unfold in Hin. cbv zeta in Hin.
    rewrite Hex in Hin. cbn [activeList] in Hin.
    apply filter_In in Hin. destruct Hin as [_ Hkeep].
    unfold excludeKeeps, nameless, somePattern in Hkeep. rewrite Hname in Hkeep.
    vm_compute in Hkeep. discriminate Hkeep.
Qed.

(** C7.  A tool descriptor without a name ([name] missing or empty) is
    dropped whenever the include list is active, and it passes the exclude
    step: with no active include list it is in the result whenever it is in
    the input, whatever the exclude list is. *)
Theorem nameless_tool_dropped_by_include_kept_by_exclude
  (tool : Tool) (tools : list Tool) (filterConfig : ToolFilterConfig) :
  nameless tool = true ->
  (forall p ps, include filterConfig = Some (p :: ps) ->
                ~ In tool (filterToolsByConfig tools filterConfig))
  /\ (forall patterns, excludeKeeps patterns tool = true)
  /\ (activeList (include filterConfig) = None ->
      In tool tools -> In tool (filterToolsByConfig tools filterConfig)).
Proof.
  intros Hnameless. split; [|split].
  - intros p ps Hinc Hin. rewrite filterToolsByConfig_unfold in Hin.
    cbv zeta in Hin. rewrite Hinc in Hin. cbn [activeList] in Hin.
    assert (Hin' : In tool (List.filter (includeKeeps (p :: ps)) tools)).
    { destruct (activeList (exclude filterConfig)); [|exact Hin].
      apply filter_In in Hin. tauto. }
    apply filter_In in Hin'. destruct Hin' as [_ Hkeep].
    rewrite includeKeeps_nameless in Hkeep by assumption. discriminate Hkeep.
  - intros patterns. now apply excludeKeeps_nameless.
  - intros Hinc Hin. rewrite filterToolsByConfig_unfold. cbv zeta. rewrite Hinc.
    destruct (activeList (exclude filterConfig)); [|exact Hin].
    apply filter_In. split; [exact Hin | now apply excludeKeeps_nameless].
Qed.

Lemma applyFilters_per_connection_stage_first_witness :
  let this := with_serverFilters {["srv" := rules None (Some ["foo"])]}
                (with_globalFilters (Some (rules (Some ["foo"]) None)) emptyManager) in
  matchesPattern "foo" "foo" = true /\
  applyFiltersTo this [tool_foo; tool_bar] "srv" = [] /\
  ~ In tool_foo (applyFiltersTo this [tool_foo; tool_bar] "srv").
Proof.
  intros this. split; [reflexivity |]. split; [reflexivity |].
  refine (proj2 (proj2 (applyFilters_per_connection_stage_first
                          this "srv" [tool_foo; tool_bar] []))
            (rules None (Some ["foo"])) tool_foo _ _ _); reflexivity.
Defined.

Lemma nameless_tool_dropped_by_include_kept_by_exclude_witness :
  nameless tool_anonymous = true /\
  ~ In tool_anonymous
      (filterToolsByConfig [tool_foo; tool_anonymous] (rules (Some ["*"]) None)) /\
  In tool_anonymous
     (filterToolsByConfig [tool_foo; tool_anonymous] (rules None (Some ["*"]))).
Proof.
  split; [reflexivity |]. split.
  - refine (proj1 (nameless_tool_dropped_by_include_kept_by_exclude
                     tool_anonymous [tool_foo; tool_anonymous]
                     (rules (Some ["*"]) None) _) "*" [] _); reflexivity.
  - refine (proj2 (proj2 (nameless_tool_dropped_by_include_kept_by_exclude
                     tool_anonymous [tool_foo; tool_anonymous]
                     (rules None (Some ["*"])) _)) _ _);
      [reflexivity | reflexivity | right; left; reflexivity].
Defined.

(* ===================================================================== *)
(** * The [Map] of clients                                                *)
(* ===================================================================== *)

Section JsMapFacts.
Context {V : Type}.
Implicit Types (m : list (string * V)) (k : string) (v : V).

Lemma has_get m k : JsMap.has m k = bool_decide (is_Some (JsMap.get m k)).
Proof.
  unfold JsMap.has. destruct (JsMap.get m k) as [v|].
  - symmetry. apply bool_decide_eq_true. eauto.
  - symmetry. apply bool_decide_eq_false. now intros [v Hv].
Qed.

Lemma get_set_eq m k v : JsMap.get (JsMap.set m k v) k = Some v.
Proof.
  induction m as [|[k' v'] m IH]; simpl.
  - now rewrite String.eqb_refl.
  - destruct (String.eqb k' k) eqn:E; simpl; rewrite E; [reflexivity | exact IH].
Qed.

Lemma get_set_ne m k k' v : k <> k' -> JsMap.get (JsMap.set m k v) k' = JsMap.get m k'.
Proof.
  intros Hne. induction m as [|[k0 v0] m IH]; simpl.
  - destruct (String.eqb k k') eqn:E; [|reflexivity].
    apply String.eqb_eq in E. contradiction.
  - destruct (String.eqb k0 k) eqn:E; simpl.
    + apply String.eqb_eq in E. subst k0.
      destruct (String.eqb k k') eqn:E'; [|reflexivity].
      apply String.eqb_eq in E'. contradiction.
    + now rewrite IH.
Qed.

Lemma get_delete_eq m k : JsMap.get (JsMap.delete m k) k = None.
Proof.
  induction m as [|[k' v'] m IH]; simpl; [reflexivity |].
  destruct (String.eqb k' k) eqn:E; simpl; [exact IH | now rewrite E].
Qed.

Lemma get_delete_ne m k k' : k <> k' -> JsMap.get (JsMap.delete m k) k' = JsMap.get m k'.
Proof.
  intros Hne. induction m as [|[k0 v0] m IH]; simpl; [reflexivity |].
  destruct (String.eqb k0 k) eqn:E; simpl.
  - apply String.eqb_eq in E. subst k0.
    destruct (String.eqb k k') eqn:E'; [|exact IH].
    apply String.eqb_eq in E'. contradiction.
  - now rewrite IH.
Qed.

(** With one pair per key, [delete] takes out that pair and no other. *)
Lemma delete_absent m k : JsMap.get m k = None -> JsMap.delete m k = m.
Proof.
  induction m as [|[k' v'] m IH]; simpl; [reflexivity |].
  destruct (String.eqb k' k); [discriminate |]. intros H. now rewrite IH.
Qed.

Lemma keys_set_fresh m k v :
  JsMap.get m k = None -> JsMap.keys (JsMap.set m k v) = JsMap.keys m ++ [k].
Proof.
  unfold JsMap.keys. induction m as [|[k' v'] m IH]; simpl; [reflexivity |].
  destruct (String.eqb k' k); [discriminate |]. intros H. simpl. now rewrite IH.
Qed.






End JsMapFacts.

(* ===================================================================== *)
(** * Connection registry: properties                                     *)
(* ===================================================================== *)

Lemma getClient_found (serverName : string) (m : McpServerManager) (client : Client) :
  JsMap.get (clients m) serverName = Some client ->
  getClient serverName m = (Normal client, m, []).
Proof. intros H. run. now rewrite H. Qed.

Lemma getClient_missing (serverName : string) (m : McpServerManager) :
  JsMap.get (clients m) serverName = None ->
  getClient serverName m = (Throw (NotConnected serverName), m, []).
Proof. intros H. run. now rewrite H. Qed.

Lemma listTools_missing (w : World) (serverName : string) (m : McpServerManager) :
  JsMap.get (clients m) serverName = None ->
  listTools w serverName m = (Throw (NotConnected serverName), m, []).
Proof. intros H. run. now rewrite H. Qed.

Lemma connectToServer_taken (w : World) (serverName : string)
  (params : McpServerConfig) (m : McpServerManager) (client : Client) :
  JsMap.get (clients m) serverName = Some client ->
  connectToServer w serverName params m = (Throw (AlreadyConnected serverName), m, []).
Proof. intros H. run. unfold JsMap.has. now rewrite H. Qed.

Lemma connectToServer_ok (w : World) (serverName : string)
  (params : McpServerConfig) (m : McpServerManager) :
  JsMap.get (clients m) serverName = None ->
  connectOutcome w (newClient w serverName params) = None ->
  connectToServer w serverName params m
  = (Normal tt,
     with_clients (JsMap.set (clients m) serverName (newClient w serverName params)) m,
     [ClientConnect (newClient w serverName params)]).
Proof. intros H Hc. run. unfold JsMap.has. rewrite H. cbn. rewrite Hc. reflexivity. Qed.

Lemma connectToServer_rejected (w : World) (serverName : string)
  (params : McpServerConfig) (m : McpServerManager) (cause : string) :
  JsMap.get (clients m) serverName = None ->
  connectOutcome w (newClient w serverName params) = Some cause ->
  connectToServer w serverName params m
  = (Throw (ConnectFailed serverName cause), m,
     [ClientConnect (newClient w serverName params);
      ConsoleError ("Failed to connect to server '" +:+ serverName +:+ "': " +:+ cause)]).
Proof. intros H Hc. run. unfold JsMap.has. rewrite H. cbn. rewrite Hc. reflexivity. Qed.

Lemma disconnectServer_ok (w : World) (serverName : string) (m : McpServerManager)
  (client : Client) :
  JsMap.get (clients m) serverName = Some client ->
  closeOutcome w client = None ->
  disconnectServer w serverName m
  = (Normal tt, with_clients (JsMap.delete (clients m) serverName) m, [ClientClose client]).
Proof. intros H Hc. run. rewrite H. cbn. rewrite Hc. reflexivity. Qed.

Lemma disconnectServer_rejected (w : World) (serverName : string)
  (m : McpServerManager) (client : Client) (cause : string) :
  JsMap.get (clients m) serverName = Some client ->
  closeOutcome w client = Some cause ->
  disconnectServer w serverName m
  = (Throw (DisconnectFailed serverName cause), m,
     [ClientClose client;
      ConsoleError ("Failed to disconnect from server '" +:+ serverName +:+ "': "
                      +:+ cause)]).
Proof. intros H Hc. run. rewrite H. cbn. rewrite Hc. reflexivity. Qed.

(** C5.  While a name maps to a handle, [connectToServer] under that name
    throws the "Already connected" error, starts no session and leaves the
    manager as it was: the name still resolves to the first handle. *)
Theorem connect_under_registered_name_fails (w : World) (m : McpServerManager)
  (serverName : string) (params : McpServerConfig) (client : Client) :
  JsMap.get (clients m) serverName = Some client ->
  connectToServer w serverName params m = (Throw (AlreadyConnected serverName), m, [])
  /\ getClient serverName m = (Normal client, m, []).
Proof.
  intros H. split.
  - exact (connectToServer_taken w serverName params m client H).
  - exact (getClient_found serverName m client H).
Qed.

(** Two connects in a row under the name ["a"]: the first registers its
    client, the second fails and the first client is still the one found. *)
Lemma connect_under_registered_name_fails_witness :
  let w := world [] [] in
  let first := launch "node" None in
  let second := launch "python" None in
  let m1 := (connectToServer w "a" first emptyManager).1.2 in
  JsMap.get (clients m1) "a" = Some (newClient w "a" first)
  /\ connectToServer w "a" second m1 = (Throw (AlreadyConnected "a"), m1, [])
  /\ getClient "a" m1 = (Normal (newClient w "a" first), m1, []).
Proof.
  intros w first second m1.
  split; [reflexivity |].
  apply (connect_under_registered_name_fails w m1 "a" second (newClient w "a" first)).
  reflexivity.
Defined.

(** What [loadFromConfig] does with one entry whose name is free and whose
    session cannot be established: the rules of the entry are stored first,
    the connect is tried, its error is caught and logged. *)
Lemma loadEntry_rejected (w : World) (m : McpServerManager)
  (serverName : string) (params : McpServerConfig) (cause : string) :
  JsMap.get (clients m) serverName = None ->
  connectOutcome w (newClient w serverName params) = Some cause ->
  (loadEntry w (serverName, params) m).1
  = (Normal tt,
     match filters params with
     | Some f => with_serverFilters (<[serverName := f]> (serverFilters m)) m
     | None => m
     end).
Proof.
  intros Habsent Hfail. run. unfold JsMap.has. rewrite Habsent. cbn.
  destruct (filters params); cbn; rewrite Habsent; cbn; rewrite Hfail; reflexivity.
Qed.

(** C6 (as amended).  When establishing the session fails, no handle is
    registered for the name.  [connectToServer] throws and leaves the whole
    manager as it was.  [loadFromConfig] catches that error for the entry and
    leaves the map of clients as it was, but it has stored the filter rules of
    the entry before the attempt and they stay in the map of rules.  In both
    cases the name has no handle afterwards, and resolving it or listing its
    tools throws the "Not connected" error. *)
Theorem failed_connect_registers_no_handle (w : World) (m : McpServerManager)
  (serverName : string) (params : McpServerConfig) (cause : string) :
  JsMap.get (clients m) serverName = None ->
  connectOutcome w (newClient w serverName params) = Some cause ->
  let direct := connectToServer w serverName params m in
  let loaded := loadEntry w (serverName, params) m in
  (direct.1.1 = Throw (ConnectFailed serverName cause) /\ direct.1.2 = m)
  /\ (loaded.1.1 = Normal tt
      /\ clients loaded.1.2 = clients m
      /\ globalFilters loaded.1.2 = globalFilters m
      /\ serverFilters loaded.1.2
         = match filters params with
           | Some f => <[serverName := f]> (serverFilters m)
           | None => serverFilters m
           end)
  /\ (forall after : McpServerManager,
         after = direct.1.2 \/ after = loaded.1.2 ->
         JsMap.get (clients after) serverName = None
         /\ getClient serverName after = (Throw (NotConnected serverName), after, [])
         /\ forall w' : World,
             listTools w' serverName after
             = (Throw (NotConnected serverName), after, [])).
Proof.
  intros Habsent Hfail direct loaded.
  assert (Hdirect : direct = (Throw (ConnectFailed serverName cause), m,
                      [ClientConnect (newClient w serverName params);
                       ConsoleError ("Failed to connect to server '" +:+ serverName
                                       +:+ "': " +:+ cause)])).
  { exact (connectToServer_rejected w serverName params m cause Habsent Hfail). }
  pose proof (loadEntry_rejected w m serverName params cause Habsent Hfail) as Hloaded.
  fold loaded in Hloaded.
  assert (Hclients : clients loaded.1.2 = clients m).
  { rewrite Hloaded. now destruct (filters params). }
  split; [rewrite Hdirect; split; reflexivity |]. split.
  - rewrite Hloaded. cbn [fst snd]. destruct (filters params); repeat split; reflexivity.
  - intros after Hafter.
    assert (Hget : JsMap.get (clients after) serverName = None).
    { destruct Hafter as [-> | ->].
      - rewrite Hdirect. exact Habsent.
      - rewrite Hclients. exact Habsent. }
    split; [exact Hget |]. split.
    + exact (getClient_missing serverName after Hget).
    + intros w'. exact (listTools_missing w' serverName after Hget).
Qed.

Lemma failed_connect_registers_no_handle_witness :
  let w := world ["mcp-client-a"] [] in
  let params := launch "missing-binary" (Some (rules (Some ["read*"]) None)) in
  (connectToServer w "a" params emptyManager).1.1 = Throw (ConnectFailed "a" "spawn ENOENT")
  /\ (connectToServer w "a" params emptyManager).1.2 = emptyManager
  /\ getClient "a" (loadEntry w ("a", params) emptyManager).1.2
     = (Throw (NotConnected "a"), (loadEntry w ("a", params) emptyManager).1.2, []).
Proof.
  intros w params.
  pose proof (failed_connect_registers_no_handle w emptyManager "a" params
                "spawn ENOENT" eq_refl eq_refl) as [[H1 H2] [_ H3]].
  split; [exact H1 |]. split; [exact H2 |].
  exact (proj1 (proj2 (H3 _ (or_intror eq_refl)))).
Defined.

(** C6 (as stated, refuted).  A configuration with one server ["a"], which
    carries filter rules and whose child cannot be spawned, is loaded into an
    empty manager.  The load completes; afterwards ["a"] has no handle, yet
    the registry holds the rules of ["a"]: part of the entry was retained.
    A later connect under the name, made without rules, has its listing
    narrowed by them. *)
Lemma failed_connect_retains_filter_rules :
  let a_rules := rules (Some ["read*"]) None in
  let doc := {| mcpServers := Some [("a", launch "missing-binary" (Some a_rules))];
                Types.globalFilters := None |} in
  let w := withConfig doc (world ["mcp-client-a"] []) in
  let after := (loadFromConfig w (Some "mcp-config.json") emptyManager).1.2 in
  (loadFromConfig w (Some "mcp-config.json") emptyManager).1.1 = Normal tt
  /\ serverFilters emptyManager !! "a" = None
  /\ JsMap.get (clients after) "a" = None
  /\ serverFilters after !! "a" = Some a_rules
  /\ (let w2 := world [] [] in
      let again := (connectToServer w2 "a" (launch "node" None) after).1.2 in
      listToolsOutcome w2 (newClient w2 "a" (launch "node" None))
      = inr (ToolList [tool_foo; tool_bar] [])
      /\ (listTools w2 "a" again).1.1 = Normal (ToolList [] [])).
Proof. vm_compute. repeat split; reflexivity. Qed.

(** C3 (as stated, refuted).  It is not the case that a successful
    [disconnectServer] leaves neither a handle nor a filter rule under the
    name: with rules stored for ["a"], they are still there afterwards. *)
Lemma disconnect_keeps_filter_rules :
  ~ (forall (w : World) (m : McpServerManager) (serverName : string) (client : Client),
        JsMap.get (clients m) serverName = Some client ->
        (disconnectServer w serverName m).1.1 = Normal tt ->
        let after := (disconnectServer w serverName m).1.2 in
        JsMap.get (clients after) serverName = None
        /\ serverFilters after !! serverName = None).
Proof.
  intros H.
  pose (w := world [] []).
  pose (a_rules := rules None (Some ["delete*"])).
  pose (client := newClient w "a" (launch "node" (Some a_rules))).
  pose (m := with_serverFilters {["a" := a_rules]}
               (with_clients [("a", client)] emptyManager)).
  destruct (H w m "a" client eq_refl eq_refl) as [_ Hrules].
  vm_compute in Hrules. discriminate Hrules.
Qed.

(** C3 (as amended).  A successful [disconnectServer] closes the client and
    removes the handle of that name, and nothing else: the other handles, the
    map of filter rules (with the rules of that name, if it has any) and the
    global rules are as before. *)
Theorem disconnect_removes_handle_only (w : World) (m : McpServerManager)
  (serverName : string) (client : Client) :
  JsMap.get (clients m) serverName = Some client ->
  closeOutcome w client = None ->
  let after := (disconnectServer w serverName m).1.2 in
  disconnectServer w serverName m = (Normal tt, after, [ClientClose client])
  /\ JsMap.get (clients after) serverName = None
  /\ (forall other : string,
         other <> serverName ->
         JsMap.get (clients after) other = JsMap.get (clients m) other)
  /\ serverFilters after = serverFilters m
  /\ globalFilters after = globalFilters m.
Proof.
  intros Hget Hclose after. subst after.
  rewrite (disconnectServer_ok w serverName m client Hget Hclose). cbn [fst snd].
  split; [reflexivity |]. split; [apply get_delete_eq |]. split.
  - intros other Hne. cbn. apply get_delete_ne. congruence.
  - split; reflexivity.
Qed.

Lemma disconnect_removes_handle_only_witness :
  let w := world [] [] in
  let a_rules := rules None (Some ["delete*"]) in
  let client := newClient w "a" (launch "node" (Some a_rules)) in
  let m := with_serverFilters {["a" := a_rules]}
             (with_clients [("a", client)] emptyManager) in
  let after := (disconnectServer w "a" m).1.2 in
  JsMap.get (clients after) "a" = None /\ serverFilters after !! "a" = Some a_rules.
Proof.
  intros w a_rules client m after.
  destruct (disconnect_removes_handle_only w m "a" client eq_refl eq_refl)
    as (_ & Hgone & _ & Hrules & _).
  split; [exact Hgone |]. fold after in Hrules. rewrite Hrules. reflexivity.
Defined.

(** C9.  When [client.close()] rejects, [disconnectServer] throws the
    "Failed to disconnect" error and leaves the manager as it was: the name
    still resolves to the same handle, and a second [disconnectServer] reaches
    [close] again and, if that succeeds, removes the handle. *)
Theorem disconnect_failure_keeps_handle (w : World) (m : McpServerManager)
  (serverName : string) (client : Client) (cause : string) :
  JsMap.get (clients m) serverName = Some client ->
  closeOutcome w client = Some cause ->
  (exists events : list Event,
      disconnectServer w serverName m
      = (Throw (DisconnectFailed serverName cause), m, events))
  /\ getClient serverName m = (Normal client, m, [])
  /\ (forall w' : World,
         closeOutcome w' client = None ->
         disconnectServer w' serverName (disconnectServer w serverName m).1.2
         = (Normal tt, with_clients (JsMap.delete (clients m) serverName) m,
            [ClientClose client])).
Proof.
  intros Hget Hclose.
  pose proof (disconnectServer_rejected w serverName m client cause Hget Hclose) as Hrun.
  split; [eexists; exact Hrun |]. split.
  - exact (getClient_found serverName m client Hget).
  - intros w' Hclose'. rewrite Hrun. cbn [fst snd].
    exact (disconnectServer_ok w' serverName m client Hget Hclose').
Qed.

Lemma disconnect_failure_keeps_handle_witness :
  let w := world [] ["mcp-client-a"] in
  let client := newClient w "a" (launch "node" None) in
  let m := with_clients [("a", client)] emptyManager in
  (disconnectServer w "a" m).1.1 = Throw (DisconnectFailed "a" "close failed")
  /\ getClient "a" (disconnectServer w "a" m).1.2 = (Normal client, m, []).
Proof.
  intros w client m.
  destruct (disconnect_failure_keeps_handle w m "a" client "close failed"
              eq_refl eq_refl) as ([events Hrun] & Hfound & _).
  rewrite Hrun. split; [reflexivity | exact Hfound].
Defined.

(** C2 (the code departs from the claim).  [disconnectAll] awaits
    [disconnectServer] for each name with nothing to catch its error.  When
    closing the first registered client rejects, the loop ends there:
    [disconnectAll] throws that error, the manager is as it was, and the only
    thing done to the outside is the one [close] that failed.  No other
    connection is asked to close, and all of them stay registered. *)
Theorem disconnectAll_stops_at_first_failure (w : World) (m : McpServerManager)
  (serverName : string) (client : Client) (rest : list (string * Client))
  (cause : string) :
  clients m = (serverName, client) :: rest ->
  closeOutcome w client = Some cause ->
  disconnectAll w m
  = (Throw (DisconnectFailed serverName cause), m,
     [ClientClose client;
      ConsoleError ("Failed to disconnect from server '" +:+ serverName +:+ "': "
                      +:+ cause)]).
Proof.
  intros Hclients Hclose.
  assert (Hget : JsMap.get (clients m) serverName = Some client).
  { rewrite Hclients. simpl. now rewrite String.eqb_refl. }
  pose proof (disconnectServer_rejected w serverName m client cause Hget Hclose) as Hrun.
  unfold disconnectAll, getConnectedServers.
  cbv beta delta [mbind mret M_bind M_ret bind ret this]. cbn beta iota.
  rewrite Hclients. cbn [JsMap.keys map fst forOf].
  cbv beta delta [mbind M_bind bind]. cbn beta iota.
  rewrite Hrun. reflexivity.
Qed.

(** Two connections, ["a"] registered first and ["b"] second; closing ["a"]
    fails and closing ["b"] would succeed.  [disconnectAll] throws, ["b"] is
    never asked to close and is still registered. *)
Lemma disconnectAll_stops_at_first_failure_witness :
  let w := world [] ["mcp-client-a"] in
  let a := newClient w "a" (launch "node" None) in
  let b := newClient w "b" (launch "node" None) in
  let m := with_clients [("a", a); ("b", b)] emptyManager in
  closeOutcome w b = None
  /\ (disconnectAll w m).1.1 = Throw (DisconnectFailed "a" "close failed")
  /\ ~ In (ClientClose b) (disconnectAll w m).2
  /\ JsMap.get (clients (disconnectAll w m).1.2) "b" = Some b.
Proof.
  intros w a b m.
  rewrite (disconnectAll_stops_at_first_failure w m "a" a [("b", b)] "close failed"
             eq_refl eq_refl).
  split; [reflexivity |]. split; [reflexivity |]. split; [|reflexivity].
  cbn [snd]. intros [H | [H | []]]; discriminate H.
Defined.

(** What [disconnectAll] does in full.  The names are distinct, as the keys
    of a [Map] are. *)
Lemma get_not_key {V : Type} (l : list (string * V)) (k : string) :
  k ∉ JsMap.keys l -> JsMap.get l k = None.
Proof.
  induction l as [|[k' v'] l IH]; simpl; [reflexivity |].
  intros Hnot. apply not_elem_of_cons in Hnot. destruct Hnot as [Hne Hnot].
  destruct (String.eqb k' k) eqn:E.
  - apply String.eqb_eq in E. congruence.
  - now apply IH.
Qed.

Lemma delete_head {V : Type} (l : list (string * V)) (k : string) (v : V) :
  k ∉ JsMap.keys l -> JsMap.delete ((k, v) :: l) k = l.
Proof.
  intros Hnot. simpl. rewrite String.eqb_refl.
  apply delete_absent, get_not_key, Hnot.
Qed.

(** The loop of [disconnectAll] while every [close] succeeds. *)
Lemma forOf_disconnect_drains (w : World) (l : list (string * Client)) :
  NoDup (JsMap.keys l) ->
  (forall n c, In (n, c) l -> closeOutcome w c = None) ->
  forall m : McpServerManager,
    clients m = l ->
    forOf (JsMap.keys l) (disconnectServer w) m
    = (Normal tt, with_clients [] m, map (fun nc => ClientClose nc.2) l).
Proof.
  induction l as [|[n c] l IH]; intros Hnd Hok m Hm.
  - cbn. unfold ret, with_clients. rewrite <- Hm. now destruct m.
  - cbn [JsMap.keys map fst forOf]. cbv beta delta [mbind M_bind bind]. cbn beta.
    inversion Hnd as [|? ? Hnot Hnd']; subst.
    assert (Hget : JsMap.get (clients m) n = Some c).
    { rewrite Hm. simpl. now rewrite String.eqb_refl. }
    rewrite (disconnectServer_ok w n m c Hget (Hok n c (or_introl eq_refl))).
    cbn beta iota. rewrite Hm, (delete_head l n c Hnot).
    change (map fst l) with (JsMap.keys l).
    rewrite (IH Hnd' (fun n' c' H => Hok n' c' (or_intror H))
               (with_clients l m) eq_refl).
    reflexivity.
Qed.

(** When every [close] succeeds [disconnectAll] closes every client, in the
    order of registration, and empties the registry. *)
Lemma disconnectAll_drains (w : World) (m : McpServerManager) :
  NoDup (JsMap.keys (clients m)) ->
  (forall n c, In (n, c) (clients m) -> closeOutcome w c = None) ->
  disconnectAll w m
  = (Normal tt, with_clients [] m, map (fun nc => ClientClose nc.2) (clients m)).
Proof.
  intros Hnd Hok. unfold disconnectAll, getConnectedServers.
  cbv beta delta [mbind mret M_bind M_ret bind ret this]. cbn beta iota.
  now rewrite (forOf_disconnect_drains w (clients m) Hnd Hok m eq_refl).
Qed.

(** The loop of [disconnectAll] up to the first [close] that fails: the
    clients before it are closed and removed, the one that fails and all
    that follow it stay registered, and none of those that follow is asked
    to close. *)
Lemma forOf_disconnect_stops (w : World) (before : list (string * Client))
  (n : string) (c : Client) (rest : list (string * Client)) (cause : string) :
  NoDup (JsMap.keys (before ++ (n, c) :: rest)) ->
  (forall n' c', In (n', c') before -> closeOutcome w c' = None) ->
  closeOutcome w c = Some cause ->
  forall m : McpServerManager,
    clients m = before ++ (n, c) :: rest ->
    forOf (JsMap.keys (before ++ (n, c) :: rest)) (disconnectServer w) m
    = (Throw (DisconnectFailed n cause),
       with_clients ((n, c) :: rest) m,
       map (fun nc => ClientClose nc.2) before
         ++ [ClientClose c;
             ConsoleError ("Failed to disconnect from server '" +:+ n +:+ "': "
                             +:+ cause)]).
Proof.
  induction before as [|[n0 c0] before IH]; intros Hnd Hok Hfail m Hm.
  - cbn [app JsMap.keys map fst forOf] in *.
    cbv beta delta [mbind M_bind bind]. cbn beta.
    assert (Hget : JsMap.get (clients m) n = Some c).
    { rewrite Hm. simpl. now rewrite String.eqb_refl. }
    rewrite (disconnectServer_rejected w n m c cause Hget Hfail).
    cbn beta iota. unfold with_clients. rewrite <- Hm. now destruct m.
  - cbn [app JsMap.keys map fst forOf] in *.
    cbv beta delta [mbind M_bind bind]. cbn beta.
    inversion Hnd as [|? ? Hnot Hnd']; subst.
    assert (Hget : JsMap.get (clients m) n0 = Some c0).
    { rewrite Hm. simpl. now rewrite String.eqb_refl. }
    rewrite (disconnectServer_ok w n0 m c0 Hget (Hok n0 c0 (or_introl eq_refl))).
    cbn beta iota. rewrite Hm.
    change ((n0, c0) :: before ++ (n, c) :: rest)
      with ((n0, c0) :: (before ++ (n, c) :: rest)).
    rewrite (delete_head (before ++ (n, c) :: rest) n0 c0 Hnot).
    change (map fst (before ++ (n, c) :: rest))
      with (JsMap.keys (before ++ (n, c) :: rest)).
    rewrite (IH Hnd' (fun n' c' H => Hok n' c' (or_intror H)) Hfail
               (with_clients (before ++ (n, c) :: rest) m) eq_refl).
    reflexivity.
Qed.


(* ===================================================================== *)
(** * Hub manager: properties                                             *)
(* ===================================================================== *)

(** C8.  [callTool] resolves the client and forwards the call: its outcome
    is the outcome of the client's [callTool] for that tool name and those
    arguments, whatever rules are stored, per connection or global.  So a
    tool that [listTools] leaves out of the listing of a connection is still
    invoked when it is called by name on that connection. *)
Theorem callTool_forwards_without_filtering (w : World) (m : McpServerManager)
  (serverName : string) (client : Client) (toolName : string)
  (arguments : list (string * JsValue)) :
  JsMap.get (clients m) serverName = Some client ->
  let forwarded : Completion JsValue :=
    match callToolOutcome w client toolName arguments with
    | inr result => Normal result
    | inl cause => Throw (Rejected cause)
    end in
  callTool w serverName toolName arguments m
  = (forwarded, m, [ClientCallTool client toolName arguments])
  /\ (forall (perConnection : gmap string ToolFilterConfig)
             (global : option ToolFilterConfig),
         let m' := with_serverFilters perConnection (with_globalFilters global m) in
         callTool w serverName toolName arguments m'
         = (forwarded, m', [ClientCallTool client toolName arguments]))
  /\ (forall (tools : list Tool) (others : list (string * JsValue)) (result : JsValue),
         listToolsOutcome w client = inr (ToolList tools others) ->
         (forall tool : Tool,
             In tool (applyFiltersTo m tools serverName) -> name tool <> Some toolName) ->
         callToolOutcome w client toolName arguments = inr result ->
         (listTools w serverName m).1.1
         = Normal (ToolList (applyFiltersTo m tools serverName) others)
         /\ (callTool w serverName toolName arguments m).1.1 = Normal result).
Proof.
  intros Hget forwarded.
  assert (Hcall : forall m', JsMap.get (clients m') serverName = Some client ->
            callTool w serverName toolName arguments m'
            = (forwarded, m', [ClientCallTool client toolName arguments])).
  { intros m' Hget'. subst forwarded. run. rewrite Hget'. cbn.
    destruct (callToolOutcome w client toolName arguments); reflexivity. }
  split; [exact (Hcall m Hget) |]. split.
  - intros perConnection global m'. apply Hcall. exact Hget.
  - intros tools others result Hlist _ Hresult. split.
    + run. rewrite Hget. cbn. rewrite Hlist. reflexivity.
    + rewrite (Hcall m Hget). subst forwarded. cbn [fst]. now rewrite Hresult.
Qed.

(** The rules of ["srv"] exclude ["foo"]: the listing shows ["bar"] only, and
    calling ["foo"] on ["srv"] reaches the child all the same. *)
Lemma callTool_forwards_without_filtering_witness :
  let w := world [] [] in
  let client := newClient w "srv" (launch "node" None) in
  let m := with_serverFilters {["srv" := rules None (Some ["foo"])]}
             (with_clients [("srv", client)] emptyManager) in
  (listTools w "srv" m).1.1 = Normal (ToolList [tool_bar] [])
  /\ (callTool w "srv" "foo" [] m).1.1 = Normal (JString "foo").
Proof.
  intros w client m.
  refine (proj2 (proj2 (callTool_forwards_without_filtering w m "srv" client "foo" []
                          eq_refl))
            [tool_foo; tool_bar] [] (JString "foo") eq_refl _ eq_refl).
  intros tool [<- | []]. discriminate.
Defined.

Lemma loadEntry_completes (w : World) (entry : string * McpServerConfig)
  (m : McpServerManager) :
  (loadEntry w entry m).1.1 = Normal tt
  /\ globalFilters (loadEntry w entry m).1.2 = globalFilters m.
Proof.
  destruct entry as [serverName serverConfig]. run.
  destruct (JsMap.has (clients m) serverName) eqn:Hhas; [split; reflexivity |].
  destruct (filters serverConfig); cbn; rewrite Hhas; cbn;
    destruct (connectOutcome w (newClient w serverName serverConfig));
    split; reflexivity.
Qed.

Lemma forOf_loadEntry_completes (w : World)
  (entries : list (string * McpServerConfig)) (m : McpServerManager) :
  (forOf entries (loadEntry w) m).1.1 = Normal tt
  /\ globalFilters (forOf entries (loadEntry w) m).1.2 = globalFilters m.
Proof.
  revert m. induction entries as [|entry entries IH]; intros m.
  - split; reflexivity.
  - cbn [forOf]. cbv beta delta [mbind M_bind bind]. cbn beta.
    destruct (loadEntry_completes w entry m) as [Hr Hg].
    destruct (loadEntry w entry m) as [[r m1] ev1]. cbn [fst snd] in Hr, Hg.
    subst r. cbn beta iota.
    destruct (IH m1) as [Hr' Hg'].
    destruct (forOf entries (loadEntry w) m1) as [[r' m2] ev2].
    cbn [fst snd] in *. split; [exact Hr' | congruence].
Qed.

(** [loadFromConfig] on a document that can be read. *)
Lemma loadFromConfig_loaded (w : World) (m : McpServerManager)
  (configPath' : option string) (path : string) (config : McpConfig) :
  Js.orElse configPath' (configPath m) = Some path ->
  Js.truthy path = true ->
  readConfig w path = inr config ->
  (loadFromConfig w configPath' m).1.1 = Normal tt
  /\ globalFilters (loadFromConfig w configPath' m).1.2
     = match Types.globalFilters config with
       | Some g => Some g
       | None => globalFilters m
       end.
Proof.
  intros Hpath Htruthy Hread.
  cbv beta delta [loadFromConfig loadConfigFile mbind mret M_bind M_ret bind ret
                    throw this modify emit]. cbn beta iota zeta.
  rewrite Hpath, Htruthy, Hread. cbn [negb app].
  set (m1 := match Types.globalFilters config with
             | Some g => with_globalFilters (Some g) m
             | None => m
             end).
  assert (Hm1 : globalFilters m1
                = match Types.globalFilters config with
                  | Some g => Some g
                  | None => globalFilters m
                  end).
  { subst m1. now destruct (Types.globalFilters config). }
  destruct (Types.globalFilters config) as [g|]; cbn beta iota; fold m1;
    (destruct (mcpServers config) as [[|entry entries]|]; cbn beta iota;
     [ split; [reflexivity | exact Hm1]
     | destruct (forOf_loadEntry_completes w (entry :: entries) m1) as [Hr Hg];
       destruct (forOf (entry :: entries) (loadEntry w) m1) as [[r m2] ev2];
       cbn [fst snd] in *; split; [exact Hr | congruence]
     | split; [reflexivity | exact Hm1] ]).
Qed.

(** C10.  When [loadFromConfig] has read a document, the load completes and
    the global rules of the manager are those of the document if it has a
    [globalFilters] field (the rules the manager had, from the constructor
    or from an earlier load, are replaced and not merged), and the rules the
    manager had if the document has no such field. *)
Theorem loadFromConfig_replaces_or_keeps_globalFilters (w : World)
  (m : McpServerManager) (configPath' : option string) (path : string)
  (config : McpConfig) :
  Js.orElse configPath' (configPath m) = Some path ->
  Js.truthy path = true ->
  readConfig w path = inr config ->
  let after := (loadFromConfig w configPath' m).1.2 in
  (loadFromConfig w configPath' m).1.1 = Normal tt
  /\ (forall g : ToolFilterConfig,
         Types.globalFilters config = Some g -> globalFilters after = Some g)
  /\ (Types.globalFilters config = None -> globalFilters after = globalFilters m).
Proof.
  intros Hpath Htruthy Hread after.
  destruct (loadFromConfig_loaded w m configPath' path config Hpath Htruthy Hread)
    as [Hr Hg].
  fold after in Hg. split; [exact Hr |]. split.
  - intros g Hdoc. now rewrite Hg, Hdoc.
  - intros Hdoc. now rewrite Hg, Hdoc.
Qed.

(** A manager built with the rules of the command line (include ["read*"]),
    then a document whose [globalFilters] excludes ["delete*"]: the include
    list of the command line is gone.  A document without the field leaves
    the rules of the command line in place. *)
Lemma loadFromConfig_replaces_or_keeps_globalFilters_witness :
  let cli := rules (Some ["read*"]) None in
  let doc_rules := rules None (Some ["delete*"]) in
  let options := {| o_configPath := Some "mcp-config.json"; o_autoLoad := false;
                    o_globalFilters := Some cli |} in
  let with_field := {| mcpServers := None; Types.globalFilters := Some doc_rules |} in
  let without_field := {| mcpServers := None; Types.globalFilters := None |} in
  let w1 := withConfig with_field (world [] []) in
  let w2 := withConfig without_field (world [] []) in
  globalFilters (newManager w1 (Some options)) = Some cli
  /\ globalFilters (loadFromConfig w1 None (newManager w1 (Some options))).1.2
     = Some doc_rules
  /\ globalFilters (loadFromConfig w2 None (newManager w2 (Some options))).1.2
     = Some cli.
Proof.
  intros cli doc_rules options with_field without_field w1 w2.
  split; [reflexivity |]. split.
  - exact (proj1 (proj2 (loadFromConfig_replaces_or_keeps_globalFilters
                           w1 (newManager w1 (Some options)) None "mcp-config.json"
                           with_field eq_refl eq_refl eq_refl))
                 doc_rules eq_refl).
  - exact (proj2 (proj2 (loadFromConfig_replaces_or_keeps_globalFilters
                           w2 (newManager w2 (Some options)) None "mcp-config.json"
                           without_field eq_refl eq_refl eq_refl))
                 eq_refl).
Defined.

(** The same at construction: with [autoLoad], the rules handed to the
    constructor are replaced by those of the document it loads. *)
Lemma construct_globalFilters (w : World) (options : Options) (path : string)
  (config : McpConfig) :
  o_autoLoad options = true ->
  Js.orElse (o_configPath options) (findConfigPath w) = Some path ->
  Js.truthy path = true ->
  readConfig w path = inr config ->
  globalFilters (construct w (Some options)).1
  = match Types.globalFilters config with
    | Some g => Some g
    | None => o_globalFilters options
    end.
Proof.
  intros Hauto Hpath Htruthy Hread. unfold construct.
  cbn [newManager configPath mbind option_bind from_option].
  rewrite Hpath, Hauto, Htruthy. cbn [andb].
  set (m0 := newManager w (Some options)).
  assert (H0 : Js.orElse (Some path) (configPath m0) = Some path).
  { unfold Js.orElse. now rewrite Htruthy. }
  destruct (loadFromConfig_loaded w m0 (Some path) path config H0 Htruthy Hread)
    as [_ Hg].
  destruct (loadFromConfig w (Some path) m0) as [[r m1] ev]. exact Hg.
Qed.

(* ===================================================================== *)
(** * Pattern Matcher: what a pattern accepts                             *)
(* ===================================================================== *)

Lemma startsWith_iff (s p : string) :
  Js.startsWith s p = true <-> exists rest : string, s = p +:+ rest.
Proof.
  revert s. induction p as [|c p IH]; intros s; destruct s as [|d s]; simpl.
  - split; [intros _; now exists EmptyString | reflexivity].
  - split; [intros _; now exists (String d s) | reflexivity].
  - split; [discriminate | intros [rest H]; discriminate H].
  - rewrite andb_true_iff, IH. split.
    + intros [Hc [rest ->]]. apply Ascii.eqb_eq in Hc. subst d. now exists rest.
    + intros [rest [= -> ->]]. split; [apply Ascii.eqb_refl | now exists rest].
Qed.

(** X1.  A pattern that ends with a dot is a plain, case-sensitive prefix:
    it accepts exactly the names that begin with the whole pattern, and its
    [*] and [?] are ordinary characters. *)
Theorem matchesPattern_namespace_prefix (toolName pattern : string) :
  Js.endsWith pattern "." = true ->
  (matchesPattern toolName pattern = true
   <-> exists rest : string, toolName = pattern +:+ rest).
Proof.
  intros Hdot. unfold matchesPattern. rewrite Hdot. apply startsWith_iff.
Qed.

Lemma matchesPattern_namespace_prefix_witness :
  (matchesPattern "fs*.read" "fs*." = true <-> exists rest, "fs*.read" = "fs*." +:+ rest)
  /\ matchesPattern "fsx.read" "fs*." = false
  /\ matchesPattern "FS*.read" "fs*." = false.
Proof.
  split; [|split; reflexivity].
  exact (matchesPattern_namespace_prefix "fs*.read" "fs*." eq_refl).
Defined.

Lemma charTerm_star : charTerm "*" = Regex.TStar Regex.ADot.
Proof. reflexivity. Qed.

Lemma charTerm_literal (c : ascii) :
  c <> "*"%char -> charTerm c = Regex.TAtom (Regex.AChar (literalOf c)).
Proof.
  intros Hc. unfold charTerm, literalOf.
  destruct (Ascii.eqb c "*") eqn:E; [apply Ascii.eqb_eq in E; contradiction |].
  destruct (Ascii.eqb c "?") eqn:E1; [reflexivity |].
  destruct (Ascii.eqb c ".") eqn:E2; [|reflexivity].
  apply Ascii.eqb_eq in E2. now subst c.
Qed.

Lemma matchFrom_star_nil (a : Regex.Atom) (ts : list Regex.Term) (b : bool) :
  Regex.matchFrom (Regex.TStar a :: ts) b "" = Regex.matchFrom ts b "".
Proof. reflexivity. Qed.

Lemma matchFrom_star_cons (a : Regex.Atom) (ts : list Regex.Term) (b : bool)
  (c : ascii) (s : string) :
  Regex.matchFrom (Regex.TStar a :: ts) b (String c s)
  = (Regex.atomMatches a c && Regex.matchFrom (Regex.TStar a :: ts) false s)
    || Regex.matchFrom ts b (String c s).
Proof. reflexivity. Qed.

Lemma globMatches_star_inv (p n : string) :
  globMatches (String "*" p) n ->
  globMatches p n
  \/ exists c n', n = String c n' /\ Regex.isLineTerminator c = false
                  /\ globMatches (String "*" p) n'.
Proof.
  intros H. inversion H; subst.
  - now left.
  - right. eauto.
  - congruence.
Qed.

(** The compiled expression accepts what [globMatches] describes. *)
Lemma matchFrom_glob (p : string) :
  forall (b : bool) (n : string),
    Regex.matchFrom (globTerms p ++ [Regex.TAssertEnd]) b n = true
    <-> globMatches p n.
Proof.
  induction p as [|c p IH]; intros b n.
  - simpl. destruct n as [|d n].
    + split; [intros _; constructor | reflexivity].
    + split; [discriminate | intros H; inversion H].
  - cbn [globTerms app]. destruct (ascii_dec c "*") as [-> | Hc].
    + rewrite charTerm_star. revert b.
      induction n as [|d n IHn]; intros b.
      * rewrite matchFrom_star_nil, IH. split.
        -- apply glob_star_none.
        -- intros H. apply globMatches_star_inv in H.
           destruct H as [H | (c' & n' & Hn & _)]; [exact H | discriminate Hn].
      * rewrite matchFrom_star_cons, orb_true_iff, andb_true_iff, IHn, IH.
        cbn [Regex.atomMatches]. rewrite negb_true_iff. split.
        -- intros [[Hlt Hrest] | Hskip].
           ++ now apply glob_star_more.
           ++ now apply glob_star_none.
        -- intros H. apply globMatches_star_inv in H.
           destruct H as [H | (c' & n' & [= -> ->] & Hlt & Hrest)]; [now right | now left].
    + rewrite (charTerm_literal c Hc). cbn [Regex.matchFrom].
      destruct n as [|d n].
      * split; [discriminate | intros H; inversion H; congruence].
      * rewrite andb_true_iff, IH. cbn [Regex.atomMatches]. split.
        -- intros [Hcd Hrest]. apply Ascii.eqb_eq in Hcd. now apply glob_char.
        -- intros H. inversion H; subst; try congruence.
           split; [apply Ascii.eqb_eq; assumption | assumption].
Qed.

Lemma matchesPattern_glob_eq (toolName pattern : string) :
  Js.endsWith pattern "." = false ->
  matchesPattern toolName pattern
  = Regex.matchFrom (globTerms pattern ++ [Regex.TAssertEnd]) true toolName.
Proof.
  intros Hdot. unfold matchesPattern. rewrite Hdot, regexPattern_parses.
  apply test_anchored.
Qed.

(** X2.  A pattern that does not end with a dot is a glob anchored at both
    ends: [*] takes any run of characters without a line terminator (also
    the empty run), [?] and [.] take one dot, every other character takes
    one character equal to it up to case. *)
Theorem matchesPattern_glob (toolName pattern : string) :
  Js.endsWith pattern "." = false ->
  (matchesPattern toolName pattern = true <-> globMatches pattern toolName).
Proof.
  intros Hdot. rewrite (matchesPattern_glob_eq toolName pattern Hdot).
  apply matchFrom_glob.
Qed.

Lemma matchesPattern_glob_witness :
  matchesPattern "ReadFile" "read*e" = true /\ globMatches "read*e" "ReadFile".
Proof.
  split; [reflexivity |].
  apply (matchesPattern_glob "ReadFile" "read*e" eq_refl). reflexivity.
Defined.

Lemma literalOf_plain (c : ascii) : Ascii.eqb c "?" = false -> literalOf c = c.
Proof. unfold literalOf. now intros ->. Qed.

Lemma globMatches_plain (p : string) :
  plainPattern p = true ->
  forall n : string, globMatches p n <-> canonical n = canonical p.
Proof.
  induction p as [|c p IH]; intros Hp n.
  - split.
    + intros H. inversion H. reflexivity.
    + destruct n; [constructor | discriminate].
  - cbn [plainPattern] in Hp. apply andb_true_iff in Hp. destruct Hp as [Hc Hp].
    apply andb_true_iff in Hc. destruct Hc as [Hstar Hq].
    apply negb_true_iff in Hstar, Hq.
    assert (Hne : c <> "*"%char) by (intros ->; discriminate Hstar).
    split.
    + intros H. inversion H; subst; try congruence.
      rewrite (literalOf_plain c Hq) in *. cbn [canonical].
      f_equal; [congruence | now apply IH].
    + destruct n as [|d n]; [discriminate |]. cbn [canonical]. intros [= Hd Hn].
      apply glob_char; [exact Hne | now rewrite (literalOf_plain c Hq) | now apply IH].
Qed.

(** X3.  A pattern without [*] and [?] that does not end with a dot accepts
    exactly the names equal to it up to case: the characters that are special
    in a regular expression, and a dot inside the pattern, stand for
    themselves. *)
Theorem matchesPattern_plain_pattern (toolName pattern : string) :
  Js.endsWith pattern "." = false ->
  plainPattern pattern = true ->
  (matchesPattern toolName pattern = true <-> canonical toolName = canonical pattern).
Proof.
  intros Hdot Hplain. rewrite (matchesPattern_glob_eq toolName pattern Hdot).
  rewrite matchFrom_glob. now apply globMatches_plain.
Qed.

Lemma matchesPattern_plain_pattern_witness :
  matchesPattern "Get(a+b)[0].X" "get(a+b)[0].x" = true
  /\ matchesPattern "get(aab)[0].x" "get(a+b)[0].x" = false.
Proof.
  split; [|reflexivity].
  apply (matchesPattern_plain_pattern "Get(a+b)[0].X" "get(a+b)[0].x" eq_refl eq_refl).
  reflexivity.
Defined.

Lemma canonicalize_idem (c : ascii) :
  Regex.canonicalize (Regex.canonicalize c) = Regex.canonicalize c.
Proof. destruct c as [[] [] [] [] [] [] [] []]; reflexivity. Qed.

Lemma isLineTerminator_canonicalize (c : ascii) :
  Regex.isLineTerminator (Regex.canonicalize c) = Regex.isLineTerminator c.
Proof. destruct c as [[] [] [] [] [] [] [] []]; reflexivity. Qed.

Lemma atomMatches_canonicalize (a : Regex.Atom) (c : ascii) :
  Regex.atomMatches a (Regex.canonicalize c) = Regex.atomMatches a c.
Proof.
  destruct a; cbn [Regex.atomMatches].
  - now rewrite canonicalize_idem.
  - now rewrite isLineTerminator_canonicalize.
Qed.

Lemma matchFrom_canonical (ts : list Regex.Term) :
  forall (b : bool) (n : string),
    Regex.matchFrom ts b (canonical n) = Regex.matchFrom ts b n.
Proof.
  induction ts as [|t ts IH]; intros b n; [reflexivity |].
  destruct t.
  - cbn [Regex.matchFrom]. now rewrite IH.
  - cbn [Regex.matchFrom]. destruct n; [apply (IH b EmptyString) | reflexivity].
  - cbn [Regex.matchFrom]. destruct n as [|d n]; [reflexivity |].
    cbn [canonical]. now rewrite atomMatches_canonicalize, IH.
  - revert b. induction n as [|d n IHn]; intros b.
    + cbn [canonical]. rewrite !matchFrom_star_nil. apply (IH b EmptyString).
    + cbn [canonical]. rewrite !matchFrom_star_cons.
      rewrite atomMatches_canonicalize, IHn.
      now rewrite <- (IH b (String d n)).
Qed.

(** X4.  Glob matching ignores the case of the name: two names with the
    same canonical (upper-case) form are accepted by the same patterns that
    do not end with a dot. *)
Theorem matchesPattern_ignores_case (toolName toolName' pattern : string) :
  Js.endsWith pattern "." = false ->
  canonical toolName = canonical toolName' ->
  matchesPattern toolName pattern = matchesPattern toolName' pattern.
Proof.
  intros Hdot Hsame. rewrite !(matchesPattern_glob_eq _ pattern Hdot).
  rewrite <- (matchFrom_canonical _ true toolName).
  rewrite <- (matchFrom_canonical _ true toolName').
  now rewrite Hsame.
Qed.

Lemma matchesPattern_ignores_case_witness :
  matchesPattern "READFILE" "read*" = matchesPattern "readFile" "read*"
  /\ matchesPattern "readFile" "read*" = true.
Proof.
  split; [|reflexivity].
  exact (matchesPattern_ignores_case "READFILE" "readFile" "read*" eq_refl eq_refl).
Defined.

Lemma globMatches_star_only (n : string) :
  globMatches "*" n <-> noLineTerminator n = true.
Proof.
  induction n as [|d n IH].
  - split; [reflexivity | intros _; apply glob_star_none, glob_end].
  - cbn [noLineTerminator]. rewrite andb_true_iff, negb_true_iff, <- IH. split.
    + intros H. apply globMatches_star_inv in H.
      destruct H as [H | (c & n' & [= -> ->] & Hlt & Hrest)]; [inversion H | tauto].
    + intros [Hlt Hrest]. now apply glob_star_more.
Qed.

Lemma endsWith_app_star (pre : string) : Js.endsWith (pre +:+ "*") "." = false.
Proof.
  induction pre as [|c pre IH]; [reflexivity |].
  simpl. destruct (pre +:+ "*") eqn:E; [destruct pre; discriminate E | exact IH].
Qed.

Lemma globMatches_plain_then_star (pre : string) :
  plainPattern pre = true ->
  forall n : string,
    globMatches (pre +:+ "*") n
    <-> exists a b : string,
          n = a +:+ b /\ canonical a = canonical pre /\ noLineTerminator b = true.
Proof.
  induction pre as [|c pre IH]; intros Hp n.
  - simpl. rewrite globMatches_star_only. split.
    + intros H. exists EmptyString, n. repeat split; assumption.
    + intros (a & b & -> & Ha & Hb). destruct a; [exact Hb | discriminate Ha].
  - cbn [plainPattern] in Hp. apply andb_true_iff in Hp. destruct Hp as [Hc Hp].
    apply andb_true_iff in Hc. destruct Hc as [Hstar Hq].
    apply negb_true_iff in Hstar, Hq.
    assert (Hne : c <> "*"%char) by (intros ->; discriminate Hstar).
    simpl. split.
    + intros H. inversion H; subst; try congruence.
      rewrite (literalOf_plain c Hq) in *.
      match goal with Hr : globMatches (pre +:+ "*") _ |- _ =>
        apply (IH Hp) in Hr; destruct Hr as (a & b & -> & Ha & Hb) end.
      exists (String d a), b. repeat split; [|exact Hb].
      cbn [canonical]. congruence.
    + intros (a & b & Hn & Ha & Hb). destruct a as [|d a]; [discriminate Ha |].
      cbn [canonical] in Ha. injection Ha as Hd Ha. subst n. simpl.
      apply glob_char; [exact Hne | now rewrite (literalOf_plain c Hq) |].
      apply (IH Hp). now exists a, b.
Qed.

(** X5.  A plain prefix followed by [*] accepts the names that begin with
    the prefix up to case and go on without a line terminator; a name with a
    line feed or a carriage return after the prefix is not accepted.  With an
    empty prefix: [*] alone accepts exactly the names without a line
    terminator. *)
Theorem matchesPattern_prefix_star (toolName prefix : string) :
  plainPattern prefix = true ->
  (matchesPattern toolName (prefix +:+ "*") = true
   <-> exists a b : string,
         toolName = a +:+ b /\ canonical a = canonical prefix
         /\ noLineTerminator b = true).
Proof.
  intros Hplain.
  rewrite (matchesPattern_glob_eq toolName _ (endsWith_app_star prefix)).
  rewrite matchFrom_glob. now apply globMatches_plain_then_star.
Qed.

Lemma matchesPattern_prefix_star_witness :
  matchesPattern "ReadFile" "read*" = true
  /\ matchesPattern ("read" +:+ String "010" "file") "read*" = false.
Proof.
  split; [|reflexivity].
  apply (matchesPattern_prefix_star "ReadFile" "read" eq_refl).
  exists "Read", "File". repeat split; reflexivity.
Defined.

(* ===================================================================== *)
(** * Filter Engine: one rule set is one predicate                        *)
(* ===================================================================== *)

Lemma filter_filter_andb {A : Type} (f g : A -> bool) (l : list A) :
  List.filter g (List.filter f l) = List.filter (fun x => f x && g x) l.
Proof.
  induction l as [|x l IH]; [reflexivity |].
  simpl. destruct (f x); simpl; [destruct (g x); now rewrite IH | exact IH].
Qed.

Lemma filter_true {A : Type} (l : list A) : List.filter (fun _ => true) l = l.
Proof. induction l as [|x l IH]; [reflexivity | simpl; now rewrite IH]. Qed.

Lemma filter_ext_eq {A : Type} (f g : A -> bool) (l : list A) :
  (forall x, f x = g x) -> List.filter f l = List.filter g l.
Proof.
  intros H. induction l as [|x l IH]; [reflexivity |].
  simpl. now rewrite H, IH.
Qed.

Lemma filterToolsByConfig_keeps (tools : list Tool) (cfg : ToolFilterConfig) :
  filterToolsByConfig tools cfg = List.filter (keeps cfg) tools.
Proof.
  rewrite filterToolsByConfig_unfold. cbv zeta. unfold keeps.
  destruct (activeList (include cfg)) as [inc|], (activeList (exclude cfg)) as [exc|].
  - apply filter_filter_andb.
  - apply filter_ext_eq. intros x. now rewrite andb_true_r.
  - reflexivity.
  - symmetry. apply filter_true.
Qed.

Lemma filter_sublist {A : Type} (f : A -> bool) (l : list A) :
  sublist (List.filter f l) l.
Proof.
  induction l as [|x l IH]; simpl; [constructor |].
  destruct (f x); [now apply sublist_skip | now apply sublist_cons].
Qed.

(** X6.  Applying a rule set twice gives what applying it once gives. *)
Theorem filterToolsByConfig_idempotent (tools : list Tool) (filterConfig : ToolFilterConfig) :
  filterToolsByConfig (filterToolsByConfig tools filterConfig) filterConfig
  = filterToolsByConfig tools filterConfig.
Proof.
  rewrite !filterToolsByConfig_keeps, filter_filter_andb.
  apply filter_ext_eq. intros x. now destruct (keeps filterConfig x).
Qed.

(** X7.  Two rule sets can be applied in either order: the per-connection
    rules followed by the global rules keep the same tools, in the same
    order, as the global rules followed by the per-connection rules. *)
Theorem filterToolsByConfig_commute (tools : list Tool) (a b : ToolFilterConfig) :
  filterToolsByConfig (filterToolsByConfig tools a) b
  = filterToolsByConfig (filterToolsByConfig tools b) a.
Proof.
  rewrite !filterToolsByConfig_keeps, !filter_filter_andb.
  apply filter_ext_eq. intros x. apply andb_comm.
Qed.

(** X8.  The filtered listing is a sublist of the listing of the child: the
    tools that stay keep their order, and no tool is added, changed or
    repeated. *)
Theorem applyFilters_sublist (this : McpServerManager) (tools : list Tool)
  (serverName : string) :
  sublist (applyFiltersTo this tools serverName) tools.
Proof.
  unfold applyFiltersTo. cbv zeta.
  destruct (serverFilters this !! serverName) as [per|], (globalFilters this) as [glob|];
    rewrite ?filterToolsByConfig_keeps.
  - etransitivity; apply filter_sublist.
  - apply filter_sublist.
  - apply filter_sublist.
  - reflexivity.
Qed.

(** X9.  Which tools stay under one rule set.  A tool with a name stays
    exactly when it is in the input, some pattern of the include list
    accepts its name (if the include list is given and not empty) and no
    pattern of the exclude list accepts it (if the exclude list is given and
    not empty): a name on both lists is dropped, and an empty list counts as
    no list. *)
Theorem filterToolsByConfig_named_tool (tools : list Tool)
  (filterConfig : ToolFilterConfig) (tool : Tool) (n : string) :
  name tool = Some n ->
  Js.truthy n = true ->
  (In tool (filterToolsByConfig tools filterConfig)
   <-> In tool tools
       /\ (forall patterns, activeList (include filterConfig) = Some patterns ->
                            existsb (matchesPattern n) patterns = true)
       /\ (forall patterns, activeList (exclude filterConfig) = Some patterns ->
                            existsb (matchesPattern n) patterns = false)).
Proof.
  intros Hname Hn.
  rewrite filterToolsByConfig_keeps, filter_In. unfold keeps.
  assert (Hinc : forall ps, includeKeeps ps tool = existsb (matchesPattern n) ps).
  { intros ps. unfold includeKeeps, nameless, somePattern. now rewrite Hname, Hn. }
  assert (Hexc : forall ps, excludeKeeps ps tool = negb (existsb (matchesPattern n) ps)).
  { intros ps. unfold excludeKeeps, nameless, somePattern. now rewrite Hname, Hn. }
  rewrite andb_true_iff.
  destruct (activeList (include filterConfig)) as [inc|],
           (activeList (exclude filterConfig)) as [exc|];
    rewrite ?Hinc, ?Hexc, ?negb_true_iff; split.
  all: try (intros (Hin & H1 & H2); split; [exact Hin |]; split;
            [intros ps [= <-] || intros ps [=]; assumption || reflexivity
            |intros ps [= <-] || intros ps [=]; assumption || reflexivity]).
  all: intros (Hin & H1 & H2); split; [exact Hin |]; split;
    try reflexivity; try (now apply H1); try (now apply H2).
Qed.

Lemma filterToolsByConfig_named_tool_witness :
  let both := rules (Some ["foo"; "bar"]) (Some ["foo"]) in
  ~ In tool_foo (filterToolsByConfig [tool_foo; tool_bar] both)
  /\ In tool_bar (filterToolsByConfig [tool_foo; tool_bar] both)
  /\ In tool_bar (filterToolsByConfig [tool_foo; tool_bar] (rules (Some []) None)).
Proof.
  intros both. split; [|split].
  - intros H.
    apply (filterToolsByConfig_named_tool [tool_foo; tool_bar] both tool_foo "foo"
             eq_refl eq_refl) in H.
    destruct H as (_ & _ & H). specialize (H ["foo"] eq_refl). discriminate H.
  - apply (filterToolsByConfig_named_tool [tool_foo; tool_bar] both tool_bar "bar"
             eq_refl eq_refl).
    split; [right; left; reflexivity |].
    split; intros ps [= <-]; reflexivity.
  - apply (filterToolsByConfig_named_tool [tool_foo; tool_bar] (rules (Some []) None)
             tool_bar "bar" eq_refl eq_refl).
    split; [right; left; reflexivity |]. split; intros ps [=].
Defined.

(* ===================================================================== *)
(** * Connection registry: errors, round trips and the invariant          *)
(* ===================================================================== *)

Lemma with_clients_same (m : McpServerManager) : with_clients (clients m) m = m.
Proof. now destruct m. Qed.

Lemma set_fresh {V : Type} (l : list (string * V)) (k : string) (v : V) :
  JsMap.get l k = None -> JsMap.set l k v = l ++ [(k, v)].
Proof.
  induction l as [|[k' v'] l IH]; simpl; [reflexivity |].
  destruct (String.eqb k' k); [discriminate |]. intros H. now rewrite IH.
Qed.

Lemma delete_set_fresh {V : Type} (l : list (string * V)) (k : string) (v : V) :
  JsMap.get l k = None -> JsMap.delete (JsMap.set l k v) k = l.
Proof.
  induction l as [|[k' v'] l IH]; simpl.
  - now rewrite String.eqb_refl.
  - destruct (String.eqb k' k) eqn:E; [discriminate |]. intros H.
    simpl. rewrite E. now rewrite IH.
Qed.

(** X10.  A name without a handle: resolving it, listing its tools, calling
    one of its tools and disconnecting it all throw the error whose message
    is [Not connected to server '<name>'.]; the manager is as before and
    nothing is done to any child. *)
Theorem unknown_name_is_not_connected (w : World) (m : McpServerManager)
  (serverName toolName : string) (arguments : list (string * JsValue)) :
  JsMap.get (clients m) serverName = None ->
  getClient serverName m = (Throw (NotConnected serverName), m, [])
  /\ listTools w serverName m = (Throw (NotConnected serverName), m, [])
  /\ callTool w serverName toolName arguments m = (Throw (NotConnected serverName), m, [])
  /\ disconnectServer w serverName m = (Throw (NotConnected serverName), m, [])
  /\ message (NotConnected serverName) = "Not connected to server '" +:+ serverName +:+ "'.".
Proof.
  intros H. repeat split; run; now rewrite H.
Qed.

Lemma unknown_name_is_not_connected_witness :
  disconnectServer (world [] []) "ghost" emptyManager
  = (Throw (NotConnected "ghost"), emptyManager, [])
  /\ message (NotConnected "ghost") = "Not connected to server 'ghost'.".
Proof.
  destruct (unknown_name_is_not_connected (world [] []) emptyManager "ghost" "t" []
              eq_refl) as (_ & _ & _ & H & Hmsg).
  split; [exact H | exact Hmsg].
Defined.

(** X11.  A connect under a free name whose session is established
    registers the new client last in the order of the registry, resolves the
    name to it, and leaves the other names, the stored rules and the global
    rules as they were. *)
Theorem connect_registers_last (w : World) (m : McpServerManager)
  (serverName : string) (params : McpServerConfig) :
  JsMap.get (clients m) serverName = None ->
  connectOutcome w (newClient w serverName params) = None ->
  let after := (connectToServer w serverName params m).1.2 in
  (connectToServer w serverName params m).1.1 = Normal tt
  /\ (getConnectedServers after).1.1
     = Normal (JsMap.keys (clients m) ++ [serverName])
  /\ getClient serverName after = (Normal (newClient w serverName params), after, [])
  /\ (forall other : string,
         other <> serverName ->
         JsMap.get (clients after) other = JsMap.get (clients m) other)
  /\ serverFilters after = serverFilters m
  /\ globalFilters after = globalFilters m.
Proof.
  intros Hfree Hok after. subst after.
  rewrite (connectToServer_ok w serverName params m Hfree Hok). cbn [fst snd].
  split; [reflexivity |]. split.
  - run. cbn [fst clients with_clients]. now rewrite (keys_set_fresh _ _ _ Hfree).
  - split; [apply getClient_found; cbn; apply get_set_eq |].
    split; [|split; reflexivity].
    intros other Hne. cbn. apply get_set_ne. congruence.
Qed.

Lemma connect_registers_last_witness :
  let w := world [] [] in
  let m := with_clients [("a", newClient w "a" (launch "node" None))] emptyManager in
  (getConnectedServers (connectToServer w "b" (launch "deno" None) m).1.2).1.1
  = Normal ["a"; "b"].
Proof.
  intros w m.
  exact (proj1 (proj2 (connect_registers_last w m "b" (launch "deno" None)
                         eq_refl eq_refl))).
Defined.

(** X12.  Connect, then disconnect: when both succeed under a name that was
    free, the manager is back in the state it had before the connect. *)
Theorem connect_then_disconnect_restores (w w' : World) (m : McpServerManager)
  (serverName : string) (params : McpServerConfig) :
  JsMap.get (clients m) serverName = None ->
  connectOutcome w (newClient w serverName params) = None ->
  closeOutcome w' (newClient w serverName params) = None ->
  let connected := (connectToServer w serverName params m).1.2 in
  disconnectServer w' serverName connected
  = (Normal tt, m, [ClientClose (newClient w serverName params)]).
Proof.
  intros Hfree Hok Hclose connected. subst connected.
  rewrite (connectToServer_ok w serverName params m Hfree Hok). cbn [fst snd].
  rewrite (disconnectServer_ok w' serverName _ (newClient w serverName params)).
  - cbn [clients with_clients]. rewrite (delete_set_fresh _ _ _ Hfree).
    unfold with_clients. cbn. now destruct m.
  - cbn. apply get_set_eq.
  - exact Hclose.
Qed.

Lemma connect_then_disconnect_restores_witness :
  let w := world [] [] in
  let m := with_clients [("a", newClient w "a" (launch "node" None))] emptyManager in
  (disconnectServer w "b" (connectToServer w "b" (launch "deno" None) m).1.2).1.2 = m.
Proof.
  intros w m.
  now rewrite (connect_then_disconnect_restores w w m "b" (launch "deno" None)
                 eq_refl eq_refl eq_refl).
Defined.

(** X13.  The environment of the child: a variable of the entry's [env]
    has the entry's value, also when the process defines it too; any other
    variable has the value of the process. *)
Theorem newClient_env_overrides (w : World) (serverName : string)
  (params : McpServerConfig) (variable : string) :
  t_env (clientTransport (newClient w serverName params)) !! variable
  = match Types.env params ≫= (fun overrides => overrides !! variable) with
    | Some value => Some value
    | None => processEnv w !! variable
    end.
Proof.
  unfold newClient. cbn [clientTransport t_env].
  destruct (Types.env params) as [overrides|]; cbn [mbind option_bind];
    [|reflexivity].
  rewrite lookup_union. destruct (overrides !! variable), (processEnv w !! variable);
    reflexivity.
Qed.

Section Preserves.
Context (P : McpServerManager -> Prop).

Lemma preserves_ret {A : Type} (a : A) : preserves P (mret a).
Proof. intros m H. exact H. Qed.

Lemma preserves_throw {A : Type} (e : HubError) : preserves P (@throw A e).
Proof. intros m H. exact H. Qed.

Lemma preserves_emit (e : Event) : preserves P (emit e).
Proof. intros m H. exact H. Qed.

Lemma preserves_this : preserves P this.
Proof. intros m H. exact H. Qed.

Lemma preserves_modify (f : McpServerManager -> McpServerManager) :
  (forall m, P m -> P (f m)) -> preserves P (modify f).
Proof. intros Hf m H. now apply Hf. Qed.

Lemma preserves_bind {A B : Type} (x : M A) (k : A -> M B) :
  preserves P x -> (forall a, preserves P (k a)) -> preserves P (x ≫= k).
Proof.
  intros Hx Hk m H. specialize (Hx m H).
  cbv beta delta [mbind M_bind bind].
  destruct (x m) as [[[a|e] m1] ev1]; cbn [fst snd] in *; [|exact Hx].
  specialize (Hk a m1 Hx). now destruct (k a m1) as [[r m2] ev2].
Qed.

Lemma preserves_tryCatch {A : Type} (body : M A) (handler : HubError -> M A) :
  preserves P body -> (forall e, preserves P (handler e)) ->
  preserves P (tryCatch body handler).
Proof.
  intros Hb Hh m H. specialize (Hb m H). unfold tryCatch.
  destruct (body m) as [[[a|e] m1] ev1]; cbn [fst snd] in *; [exact Hb |].
  specialize (Hh e m1 Hb). now destruct (handler e m1) as [[r m2] ev2].
Qed.

Lemma preserves_forOf {A : Type} (xs : list A) (body : A -> M unit) :
  (forall x, preserves P (body x)) -> preserves P (forOf xs body).
Proof.
  intros Hbody. induction xs as [|x xs IH]; cbn [forOf].
  - apply preserves_ret.
  - apply preserves_bind; [apply Hbody | intros _; exact IH].
Qed.

End Preserves.



Lemma loadEntry_preserves (P : McpServerManager -> Prop) (w : World)
  (entry : string * McpServerConfig) :
  (forall m c, P m -> JsMap.get (clients m) entry.1 = None ->
               P (with_clients (JsMap.set (clients m) entry.1 c) m)) ->
  (forall m f, P m -> JsMap.get (clients m) entry.1 = None ->
               P (with_serverFilters (<[entry.1 := f]> (serverFilters m)) m)) ->
  preserves P (loadEntry w entry).
Proof.
  destruct entry as [serverName serverConfig]. cbn [fst]. intros Hset Hrules m Hm.
  run. unfold JsMap.has.
  destruct (JsMap.get (clients m) serverName) as [c|] eqn:E; [exact Hm |].
  cbn. destruct (filters serverConfig) as [f|]; cbn; rewrite E; cbn;
    destruct (connectOutcome w (newClient w serverName serverConfig)); cbn.
  - now apply Hrules.
  - apply (Hset (with_serverFilters _ m)); [now apply Hrules | exact E].
  - exact Hm.
  - now apply Hset.
Qed.

Lemma loadFromConfig_preserves (P : McpServerManager -> Prop) (w : World)
  (configPath' : option string) :
  (forall m n c, P m -> JsMap.get (clients m) n = None ->
                 P (with_clients (JsMap.set (clients m) n c) m)) ->
  (forall m n f, P m -> JsMap.get (clients m) n = None ->
                 P (with_serverFilters (<[n := f]> (serverFilters m)) m)) ->
  (forall m g, P m -> P (with_globalFilters g m)) ->
  preserves P (loadFromConfig w configPath').
Proof.
  intros Hset Hrules Hglobal. unfold loadFromConfig.
  apply preserves_bind; [apply preserves_this | intros self].
  destruct (Js.orElse configPath' (configPath self)) as [path|]; [|apply preserves_throw].
  destruct (negb (Js.truthy path)); [apply preserves_throw |].
  apply preserves_bind.
  - unfold loadConfigFile. destruct (readConfig w path); [|apply preserves_ret].
    apply preserves_bind; [apply preserves_emit | intros _; apply preserves_throw].
  - intros config. apply preserves_bind.
    + destruct (Types.globalFilters config); [|apply preserves_ret].
      apply preserves_modify. intros m Hm. now apply Hglobal.
    + intros _. destruct (mcpServers config) as [[|entry entries]|];
        try apply preserves_emit.
      apply preserves_forOf. intros e. apply loadEntry_preserves.
      * intros m c Hm Hfree. now apply Hset.
      * intros m f Hm Hfree. now apply Hrules.
Qed.



(** X15.  When every [close] succeeds, [disconnectAll] closes every client
    once, in the order of registration, and leaves the registry empty; on an
    empty registry it does nothing. *)
Theorem disconnectAll_closes_every_client (w : World) (m : McpServerManager) :
  wellFormed m ->
  (forall n c, In (n, c) (clients m) -> closeOutcome w c = None) ->
  disconnectAll w m
  = (Normal tt, with_clients [] m, map (fun nc => ClientClose nc.2) (clients m))
  /\ (getConnectedServers (disconnectAll w m).1.2).1.1 = Normal [].
Proof.
  intros Hwf Hok. rewrite (disconnectAll_drains w m Hwf Hok). split; reflexivity.
Qed.

Lemma disconnectAll_closes_every_client_witness :
  let w := world [] [] in
  let a := newClient w "a" (launch "node" None) in
  let b := newClient w "b" (launch "deno" None) in
  let m := with_clients [("a", a); ("b", b)] emptyManager in
  disconnectAll w m = (Normal tt, emptyManager, [ClientClose a; ClientClose b])
  /\ disconnectAll w emptyManager = (Normal tt, emptyManager, []).
Proof.
  intros w a b m. split.
  - refine (proj1 (disconnectAll_closes_every_client w m _ _)).
    + unfold wellFormed. cbn. apply NoDup_cons. split.
      * intros H. apply list_elem_of_singleton in H. discriminate H.
      * apply NoDup_singleton.
    + intros n c [[= <- <-] | [[= <- <-] | []]]; reflexivity.
  - refine (proj1 (disconnectAll_closes_every_client w emptyManager _ _)).
    + apply NoDup_nil_2.
    + intros n c [].
Defined.

(** X16.  Where [disconnectAll] stops.  With the first failing [close] at
    any place in the order of registration, the clients before it are closed
    and removed, [disconnectAll] throws the error of that one, and it and
    every client after it stay registered without being asked to close. *)
Theorem disconnectAll_stops_where_close_fails (w : World) (m : McpServerManager)
  (before : list (string * Client)) (serverName : string) (client : Client)
  (rest : list (string * Client)) (cause : string) :
  wellFormed m ->
  clients m = before ++ (serverName, client) :: rest ->
  (forall n c, In (n, c) before -> closeOutcome w c = None) ->
  closeOutcome w client = Some cause ->
  disconnectAll w m
  = (Throw (DisconnectFailed serverName cause),
     with_clients ((serverName, client) :: rest) m,
     map (fun nc => ClientClose nc.2) before
       ++ [ClientClose client;
           ConsoleError ("Failed to disconnect from server '" +:+ serverName
                           +:+ "': " +:+ cause)]).
Proof.
  intros Hwf Hclients Hok Hfail. unfold wellFormed in Hwf.
  unfold disconnectAll, getConnectedServers.
  cbv beta delta [mbind mret M_bind M_ret bind ret this]. cbn beta iota.
  rewrite Hclients in Hwf |- *.
  now rewrite (forOf_disconnect_stops w before serverName client rest cause
                 Hwf Hok Hfail m Hclients).
Qed.

Lemma disconnectAll_stops_where_close_fails_witness :
  let w := world [] ["mcp-client-b"] in
  let a := newClient w "a" (launch "node" None) in
  let b := newClient w "b" (launch "node" None) in
  let c := newClient w "c" (launch "node" None) in
  let m := with_clients [("a", a); ("b", b); ("c", c)] emptyManager in
  (disconnectAll w m).1.1 = Throw (DisconnectFailed "b" "close failed")
  /\ clients (disconnectAll w m).1.2 = [("b", b); ("c", c)].
Proof.
  intros w a b c m.
  rewrite (disconnectAll_stops_where_close_fails w m [("a", a)] "b" b [("c", c)]
             "close failed").
  - split; reflexivity.
  - unfold wellFormed. cbn.
    repeat (apply NoDup_cons_2 || apply NoDup_nil_2);
      rewrite ?elem_of_cons, ?elem_of_nil; intuition discriminate.
  - reflexivity.
  - intros n c0 [[= <- <-] | []]. reflexivity.
  - reflexivity.
Defined.

Lemma collectAllTools_preserves (P : McpServerManager -> Prop) (w : World)
  (servers : list string) :
  preserves P (collectAllTools w servers).
Proof.
  assert (Hlist : forall n, preserves P (listTools w n)).
  { intros n. unfold listTools, getClient.
    apply preserves_bind.
    - apply preserves_bind; [apply preserves_this | intros self].
      destruct (JsMap.get (clients self) n); [apply preserves_ret | apply preserves_throw].
    - intros client. apply preserves_bind; [apply preserves_emit | intros _].
      destruct (listToolsOutcome w client); [apply preserves_throw |].
      apply preserves_bind; [apply preserves_this | intros self; apply preserves_ret]. }
  induction servers as [|n servers IH]; cbn [collectAllTools].
  - apply preserves_ret.
  - apply preserves_bind.
    + unfold toolsEntryFor. apply preserves_tryCatch.
      * apply preserves_bind; [apply Hlist | intros r; apply preserves_ret].
      * intros e. apply preserves_ret.
    + intros entry. apply preserves_bind; [exact IH | intros more; apply preserves_ret].
Qed.

(** X17.  Reading does not write.  Resolving a name, listing the names,
    listing the tools of a server, calling a tool, and the two tools of the
    hub ([list-all-tools], [call-tool]) leave the manager exactly as it was,
    whether they succeed or fail. *)
Theorem queries_leave_manager_unchanged (w : World) (m : McpServerManager)
  (serverName toolName : string) (arguments : list (string * JsValue)) :
  (getClient serverName m).1.2 = m
  /\ (getConnectedServers m).1.2 = m
  /\ (listTools w serverName m).1.2 = m
  /\ (callTool w serverName toolName arguments m).1.2 = m
  /\ (listAllToolsHandler w m).1.2 = m
  /\ (callToolHandler w serverName toolName arguments m).1.2 = m.
Proof.
  pose (P := fun m' : McpServerManager => m' = m).
  assert (Hget : forall n, preserves P (getClient n)).
  { intros n. unfold getClient.
    apply preserves_bind; [apply preserves_this | intros self].
    destruct (JsMap.get (clients self) n); [apply preserves_ret | apply preserves_throw]. }
  assert (Hcall : preserves P (callTool w serverName toolName arguments)).
  { unfold callTool. apply preserves_bind; [apply Hget | intros client].
    apply preserves_bind; [apply preserves_emit | intros _].
    destruct (callToolOutcome w client toolName arguments);
      [apply preserves_throw | apply preserves_ret]. }
  assert (Hlist : preserves P (listTools w serverName)).
  { unfold listTools. apply preserves_bind; [apply Hget | intros client].
    apply preserves_bind; [apply preserves_emit | intros _].
    destruct (listToolsOutcome w client); [apply preserves_throw |].
    apply preserves_bind; [apply preserves_this | intros self; apply preserves_ret]. }
  repeat split.
  - now apply (Hget serverName m).
  - now apply Hlist.
  - now apply Hcall.
  - assert (H : preserves P (listAllToolsHandler w)).
    { unfold listAllToolsHandler. apply preserves_tryCatch.
      - apply preserves_bind.
        + unfold getConnectedServers.
          apply preserves_bind; [apply preserves_this | intros self; apply preserves_ret].
        + intros servers. destruct servers; [apply preserves_ret |].
          apply preserves_bind;
            [apply collectAllTools_preserves | intros; apply preserves_ret].
      - intros e. apply preserves_ret. }
    now apply H.
  - assert (H : preserves P (callToolHandler w serverName toolName arguments)).
    { unfold callToolHandler. apply preserves_tryCatch.
      - apply preserves_bind; [apply Hcall | intros r; apply preserves_ret].
      - intros e. apply preserves_ret. }
    now apply H.
Qed.

(* ===================================================================== *)
(** * Loading a configuration                                             *)
(* ===================================================================== *)

(** X18.  [loadFromConfig] without a usable document.  With no path (none
    given and none stored, or only empty ones) it throws "Configuration file
    path not specified." before reading anything; when the document cannot
    be read or parsed it logs and throws the error that names the path and
    the cause.  In both cases the manager is as it was: no rule is replaced
    and no server is connected. *)
Theorem loadFromConfig_without_document (w : World) (m : McpServerManager)
  (configPath' : option string) :
  ((Js.orElse configPath' (configPath m) = None
    \/ Js.orElse configPath' (configPath m) = Some "") ->
   loadFromConfig w configPath' m = (Throw ConfigPathMissing, m, []))
  /\ (forall path cause : string,
         Js.orElse configPath' (configPath m) = Some path ->
         Js.truthy path = true ->
         readConfig w path = inl cause ->
         loadFromConfig w configPath' m
         = (Throw (ConfigLoadFailed path cause), m,
            [ConsoleError ("Failed to load configuration file: " +:+ cause)])
         /\ message (ConfigLoadFailed path cause)
            = "Failed to load configuration file '" +:+ path +:+ "': " +:+ cause).
Proof.
  split.
  - intros [H | H]; run; now rewrite H.
  - intros path cause Hpath Htruthy Hread. split; [|reflexivity].
    run. now rewrite Hpath, Htruthy, Hread.
Qed.

Lemma loadFromConfig_without_document_witness :
  loadFromConfig (world [] []) None emptyManager = (Throw ConfigPathMissing, emptyManager, [])
  /\ (loadFromConfig (world [] []) (Some "hub.json") emptyManager).1.1
     = Throw (ConfigLoadFailed "hub.json" "ENOENT").
Proof.
  destruct (loadFromConfig_without_document (world [] []) emptyManager None) as [H _].
  destruct (loadFromConfig_without_document (world [] []) emptyManager (Some "hub.json"))
    as [_ H'].
  split; [apply H; now left |].
  destruct (H' "hub.json" "ENOENT" eq_refl eq_refl eq_refl) as [-> _]. reflexivity.
Defined.

(** X19.  A load never touches a server that is already registered: its
    handle is the same afterwards and so are the rules stored for it, also
    when the document now carries other rules for that name, and whether the
    load succeeds or fails. *)
Theorem loadFromConfig_skips_registered (w : World) (m : McpServerManager)
  (configPath' : option string) (serverName : string) (client : Client) :
  JsMap.get (clients m) serverName = Some client ->
  let after := (loadFromConfig w configPath' m).1.2 in
  JsMap.get (clients after) serverName = Some client
  /\ serverFilters after !! serverName = serverFilters m !! serverName.
Proof.
  intros Hget after.
  pose (P := fun m' : McpServerManager =>
               JsMap.get (clients m') serverName = Some client
               /\ serverFilters m' !! serverName = serverFilters m !! serverName).
  assert (HP : preserves P (loadFromConfig w configPath')).
  { apply loadFromConfig_preserves.
    - intros m0 n c [H1 H2] Hfree. split; [|exact H2]. cbn.
      rewrite get_set_ne; [exact H1 | congruence].
    - intros m0 n f [H1 H2] Hfree. split; [exact H1 |]. cbn.
      rewrite lookup_insert_ne; [exact H2 | congruence].
    - intros m0 g HP0. exact HP0. }
  apply (HP m). split; [exact Hget | reflexivity].
Qed.

Lemma loadFromConfig_skips_registered_witness :
  let old_rules := rules (Some ["read*"]) None in
  let new_rules := rules None (Some ["read*"]) in
  let doc := {| mcpServers := Some [("a", launch "deno" (Some new_rules))];
                Types.globalFilters := None |} in
  let w := withConfig doc (world [] []) in
  let a := newClient w "a" (launch "node" (Some old_rules)) in
  let m := with_serverFilters {["a" := old_rules]}
             (with_clients [("a", a)] emptyManager) in
  let after := (loadFromConfig w (Some "hub.json") m).1.2 in
  JsMap.get (clients after) "a" = Some a
  /\ serverFilters after !! "a" = Some old_rules.
Proof.
  intros old_rules new_rules doc w a m after.
  exact (loadFromConfig_skips_registered w m (Some "hub.json") "a" a eq_refl).
Defined.

Lemma loadFromConfig_state (w : World) (m : McpServerManager)
  (configPath' : option string) (path : string) (config : McpConfig) :
  Js.orElse configPath' (configPath m) = Some path ->
  Js.truthy path = true ->
  readConfig w path = inr config ->
  (loadFromConfig w configPath' m).1.2
  = (forOf (entriesOf config) (loadEntry w) (afterGlobal config m)).1.2.
Proof.
  intros Hpath Htruthy Hread.
  cbv beta delta [loadFromConfig loadConfigFile mbind mret M_bind M_ret bind ret
                    throw this modify emit]. cbn beta iota zeta.
  rewrite Hpath, Htruthy, Hread. cbn [negb app].
  unfold afterGlobal, entriesOf.
  destruct (Types.globalFilters config) as [g|]; cbn beta iota;
    (destruct (mcpServers config) as [[|entry entries]|]; cbn [default from_option id];
     [ reflexivity
     | destruct (forOf (entry :: entries) (loadEntry w) _) as [[r m2] ev2]; reflexivity
     | reflexivity ]).
Qed.

Lemma newHandles_cons (w : World) (cl : list (string * Client)) (n : string)
  (sc : McpServerConfig) (entries : list (string * McpServerConfig)) :
  newHandles w cl ((n, sc) :: entries)
  = (if JsMap.has cl n then []
     else match connectOutcome w (newClient w n sc) with
          | None => [(n, newClient w n sc)]
          | Some _ => []
          end) ++ newHandles w cl entries.
Proof.
  unfold newHandles. cbn [omap list_omap fst snd].
  destruct (JsMap.has cl n); [reflexivity |].
  now destruct (connectOutcome w (newClient w n sc)).
Qed.

Lemma loadEntry_clients (w : World) (entry : string * McpServerConfig)
  (m : McpServerManager) :
  clients (loadEntry w entry m).1.2 = clients m ++ newHandles w (clients m) [entry].
Proof.
  destruct entry as [serverName serverConfig]. rewrite newHandles_cons.
  change (newHandles w (clients m) []) with (@nil (string * Client)).
  rewrite app_nil_r.
  run. unfold JsMap.has.
  destruct (JsMap.get (clients m) serverName) as [c|] eqn:E.
  - cbn. now rewrite app_nil_r.
  - cbn. destruct (filters serverConfig) as [f|]; cbn; rewrite E; cbn;
      destruct (connectOutcome w (newClient w serverName serverConfig)); cbn;
      rewrite ?app_nil_r, ?(set_fresh _ _ _ E); reflexivity.
Qed.

Lemma has_app_other {V : Type} (l l' : list (string * V)) (k : string) :
  k ∉ JsMap.keys l' -> JsMap.has (l ++ l') k = JsMap.has l k.
Proof.
  intros Hnot. unfold JsMap.has.
  induction l as [|[k0 v0] l IH]; simpl.
  - now rewrite (get_not_key l' k Hnot).
  - destruct (String.eqb k0 k); [reflexivity | exact IH].
Qed.

Lemma newHandles_keys (w : World) (cl : list (string * Client))
  (entries : list (string * McpServerConfig)) (k : string) :
  k ∈ JsMap.keys (newHandles w cl entries) -> k ∈ entries.*1.
Proof.
  induction entries as [|[n sc] entries IH].
  - intros H. inversion H.
  - rewrite newHandles_cons. unfold JsMap.keys. rewrite map_app, elem_of_app.
    cbn [fmap list_fmap fst]. rewrite elem_of_cons.
    intros [H | H]; [|right; now apply IH].
    destruct (JsMap.has cl n); [inversion H |].
    destruct (connectOutcome w (newClient w n sc)); [inversion H |].
    cbn in H. apply list_elem_of_singleton in H. now left.
Qed.

Lemma newHandles_ext (w : World) (cl cl' : list (string * Client))
  (entries : list (string * McpServerConfig)) :
  (forall k, k ∈ entries.*1 -> JsMap.has cl' k = JsMap.has cl k) ->
  newHandles w cl' entries = newHandles w cl entries.
Proof.
  induction entries as [|[n sc] entries IH]; intros H; [reflexivity |].
  rewrite !newHandles_cons, (H n) by (cbn; left).
  rewrite IH; [reflexivity |]. intros k Hk. apply H. cbn. now right.
Qed.

Lemma forOf_loadEntry_clients (w : World) (entries : list (string * McpServerConfig)) :
  NoDup entries.*1 ->
  forall m : McpServerManager,
    clients (forOf entries (loadEntry w) m).1.2
    = clients m ++ newHandles w (clients m) entries.
Proof.
  induction entries as [|[n sc] entries IH]; intros Hnd m.
  - cbn. now rewrite app_nil_r.
  - cbn [fmap list_fmap fst] in Hnd. apply NoDup_cons in Hnd. destruct Hnd as [Hnot Hnd].
    cbn [forOf]. cbv beta delta [mbind M_bind bind]. cbn beta.
    pose proof (loadEntry_clients w (n, sc) m) as H1.
    destruct (loadEntry_completes w (n, sc) m) as [Hr _].
    destruct (loadEntry w (n, sc) m) as [[r m1] ev1]. cbn [fst snd] in H1, Hr. subst r.
    cbn beta iota.
    specialize (IH Hnd m1).
    destruct (forOf entries (loadEntry w) m1) as [[r2 m2] ev2]. cbn [fst snd] in IH |- *.
    rewrite IH, H1, <- app_assoc. f_equal.
    rewrite (newHandles_cons w (clients m) n sc entries).
    rewrite (newHandles_cons w (clients m) n sc []).
    change (newHandles w (clients m) []) with (@nil (string * Client)).
    rewrite app_nil_r. f_equal.
    apply newHandles_ext. intros k Hk. apply has_app_other.
    intros Hin.
    assert (Hkn : k = n).
    { destruct (JsMap.has (clients m) n); [inversion Hin |].
      destruct (connectOutcome w (newClient w n sc)); [inversion Hin |].
      cbn in Hin. now apply list_elem_of_singleton in Hin. }
    subst k. contradiction.
Qed.

Lemma afterGlobal_clients (config : McpConfig) (m : McpServerManager) :
  clients (afterGlobal config m) = clients m
  /\ serverFilters (afterGlobal config m) = serverFilters m.
Proof. unfold afterGlobal. now destruct (Types.globalFilters config). Qed.

Lemma get_app_fresh {V : Type} (l l' : list (string * V)) (k : string) :
  JsMap.get l k = None -> JsMap.get (l ++ l') k = JsMap.get l' k.
Proof.
  induction l as [|[k0 v0] l IH]; simpl; [reflexivity |].
  destruct (String.eqb k0 k); [discriminate | exact IH].
Qed.

Lemma get_newHandles (w : World) (cl : list (string * Client))
  (entries : list (string * McpServerConfig)) (n : string) (sc : McpServerConfig) :
  NoDup entries.*1 ->
  (n, sc) ∈ entries ->
  JsMap.get cl n = None ->
  JsMap.get (newHandles w cl entries) n
  = match connectOutcome w (newClient w n sc) with
    | None => Some (newClient w n sc)
    | Some _ => None
    end.
Proof.
  intros Hnd Hin Hfree.
  induction entries as [|[n0 sc0] entries IH]; [inversion Hin |].
  cbn [fmap list_fmap fst] in Hnd. apply NoDup_cons in Hnd. destruct Hnd as [Hnot Hnd].
  rewrite newHandles_cons. apply elem_of_cons in Hin. destruct Hin as [[= <- <-] | Hin].
  - unfold JsMap.has. rewrite Hfree.
    destruct (connectOutcome w (newClient w n sc)).
    + cbn [app]. apply get_not_key. intros Hk. apply newHandles_keys in Hk. contradiction.
    + cbn. now rewrite String.eqb_refl.
  - assert (Hne : n0 <> n).
    { intros ->. apply Hnot. apply list_elem_of_fmap. now exists (n, sc). }
    rewrite get_app_fresh; [now apply IH |].
    destruct (JsMap.has cl n0); [reflexivity |].
    destruct (connectOutcome w (newClient w n0 sc0)); [reflexivity |].
    cbn. apply String.eqb_neq in Hne. now rewrite Hne.
Qed.



Lemma preserves_forOf_in {A : Type} (P : McpServerManager -> Prop) (xs : list A)
  (body : A -> M unit) :
  (forall x, x ∈ xs -> preserves P (body x)) -> preserves P (forOf xs body).
Proof.
  induction xs as [|x xs IH]; intros Hbody; cbn [forOf].
  - apply preserves_ret.
  - apply preserves_bind; [apply Hbody; now left | intros _].
    apply IH. intros y Hy. apply Hbody. now right.
Qed.

(** An entry under another name leaves a free name free and its rules as
    they are. *)
Lemma loadEntry_other_name (w : World) (entry : string * McpServerConfig)
  (n : string) (r : option ToolFilterConfig) :
  entry.1 <> n ->
  preserves (fun m' => JsMap.get (clients m') n = None /\ serverFilters m' !! n = r)
    (loadEntry w entry).
Proof.
  intros Hne. apply loadEntry_preserves.
  - intros m c [H1 H2] _. split; [|exact H2]. cbn. now rewrite get_set_ne.
  - intros m f [H1 H2] _. split; [exact H1 |]. cbn. now rewrite lookup_insert_ne.
Qed.

Lemma loadEntry_rules (w : World) (n : string) (sc : McpServerConfig)
  (m : McpServerManager) :
  JsMap.get (clients m) n = None ->
  JsMap.get (clients (loadEntry w (n, sc) m).1.2) n
  = match connectOutcome w (newClient w n sc) with
    | None => Some (newClient w n sc)
    | Some _ => None
    end
  /\ serverFilters (loadEntry w (n, sc) m).1.2
     = match filters sc with
       | Some f => <[n := f]> (serverFilters m)
       | None => serverFilters m
       end.
Proof.
  intros Hfree. run. unfold JsMap.has. rewrite Hfree. cbn.
  destruct (filters sc) as [f|]; cbn; rewrite Hfree; cbn;
    destruct (connectOutcome w (newClient w n sc)); cbn;
    rewrite ?get_set_eq; split; reflexivity || exact Hfree.
Qed.

Lemma forOf_loadEntry_rules (w : World) (entries : list (string * McpServerConfig)) :
  NoDup entries.*1 ->
  forall (m : McpServerManager) (n : string) (sc : McpServerConfig),
    (n, sc) ∈ entries ->
    JsMap.get (clients m) n = None ->
    serverFilters (forOf entries (loadEntry w) m).1.2 !! n
    = match filters sc with
      | Some f => Some f
      | None => serverFilters m !! n
      end.
Proof.
  induction entries as [|[n0 sc0] entries IH]; intros Hnd m n sc Hin Hfree;
    [inversion Hin |].
  cbn [fmap list_fmap fst] in Hnd. apply NoDup_cons in Hnd. destruct Hnd as [Hnot Hnd].
  cbn [forOf]. cbv beta delta [mbind M_bind bind]. cbn beta.
  destruct (loadEntry_completes w (n0, sc0) m) as [Hr _].
  apply elem_of_cons in Hin. destruct Hin as [[= <- <-] | Hin].
  - destruct (loadEntry_rules w n sc m Hfree) as [_ Hrules].
    destruct (loadEntry w (n, sc) m) as [[r m1] ev1]. cbn [fst snd] in Hr, Hrules.
    subst r. cbn beta iota.
    assert (Hframe : preserves
              (fun m' => serverFilters m' !! n = serverFilters m1 !! n)
              (forOf entries (loadEntry w))).
    { apply preserves_forOf_in. intros [n' sc'] Hin'.
      apply loadEntry_preserves.
      - intros m0 c H _. exact H.
      - intros m0 f H _. cbn. rewrite lookup_insert_ne; [exact H |].
        cbn. intros ->. apply Hnot. apply list_elem_of_fmap. now exists (n, sc'). }
    specialize (Hframe m1 eq_refl).
    destruct (forOf entries (loadEntry w) m1) as [[r2 m2] ev2]. cbn [fst snd] in *.
    rewrite Hframe, Hrules. destruct (filters sc); [apply lookup_insert_eq | reflexivity].
  - assert (Hne : n0 <> n).
    { intros ->. apply Hnot. apply list_elem_of_fmap. now exists (n, sc). }
    pose proof (loadEntry_other_name w (n0, sc0) n (serverFilters m !! n) Hne m
                  (conj Hfree eq_refl)) as [Hfree1 Hrules1].
    destruct (loadEntry w (n0, sc0) m) as [[r m1] ev1]. cbn [fst snd] in *.
    subst r. cbn beta iota.
    specialize (IH Hnd m1 n sc Hin Hfree1).
    destruct (forOf entries (loadEntry w) m1) as [[r2 m2] ev2]. cbn [fst snd] in *.
    now rewrite IH, Hrules1.
Qed.

(** X21.  What a load stores as rules.  For a name of the document that was
    free before the load, the rules of its entry are stored under the name,
    and this is so whether its connect succeeds or fails; an entry without
    rules leaves what was stored under the name.  Names that are not in the
    document keep their rules. *)
Theorem loadFromConfig_stores_rules_of_free_names (w : World)
  (m : McpServerManager) (configPath' : option string) (path : string)
  (config : McpConfig) :
  Js.orElse configPath' (configPath m) = Some path ->
  Js.truthy path = true ->
  readConfig w path = inr config ->
  NoDup (entriesOf config).*1 ->
  let after := (loadFromConfig w configPath' m).1.2 in
  (forall (n : string) (sc : McpServerConfig),
      (n, sc) ∈ entriesOf config ->
      JsMap.get (clients m) n = None ->
      serverFilters after !! n
      = match filters sc with
        | Some f => Some f
        | None => serverFilters m !! n
        end)
  /\ (forall n : string,
         n ∉ (entriesOf config).*1 ->
         serverFilters after !! n = serverFilters m !! n).
Proof.
  intros Hpath Htruthy Hread Hnd after. subst after.
  rewrite (loadFromConfig_state w m configPath' path config Hpath Htruthy Hread).
  destruct (afterGlobal_clients config m) as [Hc Hf]. split.
  - intros n sc Hin Hfree.
    rewrite (forOf_loadEntry_rules w (entriesOf config) Hnd (afterGlobal config m) n sc Hin)
      by (rewrite Hc; exact Hfree).
    now rewrite Hf.
  - intros n Hnot.
    assert (Hframe : preserves
              (fun m' => serverFilters m' !! n = serverFilters m !! n)
              (forOf (entriesOf config) (loadEntry w))).
    { apply preserves_forOf_in. intros [n' sc'] Hin'.
      apply loadEntry_preserves.
      - intros m0 c H _. exact H.
      - intros m0 f H _. cbn. rewrite lookup_insert_ne; [exact H |].
        cbn. intros ->. apply Hnot. apply list_elem_of_fmap. now exists (n, sc'). }
    apply Hframe. now rewrite Hf.
Qed.

Lemma loadFromConfig_stores_rules_of_free_names_witness :
  let a_rules := rules (Some ["read*"]) None in
  let doc := {| mcpServers := Some [("a", launch "missing-binary" (Some a_rules));
                                    ("b", launch "node" None)];
                Types.globalFilters := None |} in
  let w := withConfig doc (world ["mcp-client-a"] []) in
  let after := (loadFromConfig w (Some "hub.json") emptyManager).1.2 in
  serverFilters after !! "a" = Some a_rules /\ serverFilters after !! "b" = None.
Proof.
  intros a_rules doc w after.
  assert (Hnd : NoDup (entriesOf doc).*1).
  { cbn. repeat (apply NoDup_cons_2 || apply NoDup_nil_2);
      rewrite ?elem_of_cons, ?elem_of_nil; intuition discriminate. }
  destruct (loadFromConfig_stores_rules_of_free_names w emptyManager (Some "hub.json")
              "hub.json" doc eq_refl eq_refl eq_refl Hnd) as [H _].
  split.
  - apply (H "a" (launch "missing-binary" (Some a_rules))); [now left | reflexivity].
  - apply (H "b" (launch "node" None)); [right; now left | reflexivity].
Defined.

Lemma get_app_None {V : Type} (l l' : list (string * V)) (k : string) :
  JsMap.get (l ++ l') k = None -> JsMap.get l k = None.
Proof.
  induction l as [|[k0 v0] l IH]; simpl; [reflexivity |].
  destruct (String.eqb k0 k); [discriminate | exact IH].
Qed.

Lemma with_serverFilters_same (m : McpServerManager) :
  with_serverFilters (serverFilters m) m = m.
Proof. now destruct m. Qed.

Lemma with_globalFilters_same (m : McpServerManager) :
  with_globalFilters (globalFilters m) m = m.
Proof. now destruct m. Qed.

Lemma loadFromConfig_configPath (w : World) (configPath' : option string)
  (m : McpServerManager) :
  configPath (loadFromConfig w configPath' m).1.2 = configPath m.
Proof.
  assert (H : preserves (fun m' => configPath m' = configPath m)
                (loadFromConfig w configPath')).
  { apply loadFromConfig_preserves; intros; assumption. }
  now apply H.
Qed.

(** X22.  Loading the same document again changes nothing.  In a world where
    each child answers as it did the first time, a second [loadFromConfig] of
    a document with distinct names completes and leaves the manager in the
    state the first load left it in: registered servers are skipped, and the
    servers that failed fail again with their rules already stored. *)
Theorem loadFromConfig_twice_is_once (w : World) (m : McpServerManager)
  (configPath' : option string) (path : string) (config : McpConfig) :
  Js.orElse configPath' (configPath m) = Some path ->
  Js.truthy path = true ->
  readConfig w path = inr config ->
  NoDup (entriesOf config).*1 ->
  let once := (loadFromConfig w configPath' m).1.2 in
  (loadFromConfig w configPath' once).1.1 = Normal tt
  /\ (loadFromConfig w configPath' once).1.2 = once.
Proof.
  intros Hpath Htruthy Hread Hnd once.
  assert (Hpath1 : Js.orElse configPath' (configPath once) = Some path).
  { subst once. now rewrite loadFromConfig_configPath. }
  split; [exact (proj1 (loadFromConfig_loaded w once configPath' path config
                          Hpath1 Htruthy Hread)) |].
  rewrite (loadFromConfig_state w once configPath' path config Hpath1 Htruthy Hread).
  assert (Honce : once = (forOf (entriesOf config) (loadEntry w)
                            (afterGlobal config m)).1.2).
  { subst once. exact (loadFromConfig_state w m configPath' path config Hpath Htruthy Hread). }
  destruct (afterGlobal_clients config m) as [Hc Hf].
  assert (Hglobal : afterGlobal config once = once).
  { unfold afterGlobal. destruct (Types.globalFilters config) as [g|] eqn:Eg; [|reflexivity].
    pose proof (proj2 (loadFromConfig_loaded w m configPath' path config
                         Hpath Htruthy Hread)) as Hg.
    rewrite Eg in Hg. fold once in Hg. rewrite <- Hg. apply with_globalFilters_same. }
  rewrite Hglobal.
  assert (Hloop : preserves (fun m' => m' = once)
                    (forOf (entriesOf config) (loadEntry w))).
  { apply preserves_forOf_in. intros [n sc] Hin m' ->.
    destruct (JsMap.get (clients once) n) as [c|] eqn:Eget.
    - run. unfold JsMap.has. now rewrite Eget.
    - assert (Hfree : JsMap.get (clients (afterGlobal config m)) n = None).
      { rewrite Honce, (forOf_loadEntry_clients w (entriesOf config) Hnd) in Eget.
        now apply get_app_None in Eget. }
      assert (Hfail : exists cause, connectOutcome w (newClient w n sc) = Some cause).
      { rewrite Honce, (forOf_loadEntry_clients w (entriesOf config) Hnd) in Eget.
        rewrite (get_app_fresh _ _ _ Hfree) in Eget.
        rewrite (get_newHandles w _ (entriesOf config) n sc Hnd Hin Hfree) in Eget.
        destruct (connectOutcome w (newClient w n sc)) as [cause|]; [eauto | discriminate]. }
      destruct Hfail as [cause Hfail].
      pose proof (loadEntry_rejected w once n sc cause Eget Hfail) as Hrun.
      destruct (loadEntry w (n, sc) once) as [[r m2] ev]. cbn [fst snd] in *.
      injection Hrun as _ ->.
      destruct (filters sc) as [f|] eqn:Ef; [|reflexivity].
      pose proof (forOf_loadEntry_rules w (entriesOf config) Hnd
                    (afterGlobal config m) n sc Hin Hfree) as Hrules.
      rewrite <- Honce, Ef in Hrules.
      rewrite (insert_id _ _ _ Hrules). apply with_serverFilters_same. }
  now apply Hloop.
Qed.

Lemma loadFromConfig_twice_is_once_witness :
  let doc := {| mcpServers := Some [("a", launch "missing-binary"
                                            (Some (rules (Some ["read*"]) None)));
                                    ("b", launch "node" None)];
                Types.globalFilters := Some (rules None (Some ["delete*"])) |} in
  let w := withConfig doc (world ["mcp-client-a"] []) in
  let once := (loadFromConfig w (Some "hub.json") emptyManager).1.2 in
  (loadFromConfig w (Some "hub.json") once).1.2 = once.
Proof.
  intros doc w once.
  refine (proj2 (loadFromConfig_twice_is_once w emptyManager (Some "hub.json")
                   "hub.json" doc eq_refl eq_refl eq_refl _)).
  cbn. repeat (apply NoDup_cons_2 || apply NoDup_nil_2);
    rewrite ?elem_of_cons, ?elem_of_nil; intuition discriminate.
Defined.

(* ===================================================================== *)
(** * Start-up: command line and configuration path                       *)
(* ===================================================================== *)

Lemma indexOf_absent (l : list string) (x : string) :
  x ∉ l -> JsLib.indexOf l x = None.
Proof.
  induction l as [|y l IH]; [reflexivity |].
  intros Hnot. apply not_elem_of_cons in Hnot. destruct Hnot as [Hne Hnot].
  simpl. destruct (String.eqb y x) eqn:E.
  - apply String.eqb_eq in E. congruence.
  - now rewrite IH.
Qed.

Lemma indexOf_first (pre rest : list string) (x : string) :
  x ∉ pre -> JsLib.indexOf (pre ++ x :: rest) x = Some (length pre).
Proof.
  induction pre as [|y pre IH]; intros Hnot; simpl.
  - now rewrite String.eqb_refl.
  - apply not_elem_of_cons in Hnot. destruct Hnot as [Hne Hnot].
    destruct (String.eqb y x) eqn:E.
    + apply String.eqb_eq in E. congruence.
    + now rewrite IH.
Qed.

Lemma argAfter_absent (argv : list string) (flag : string) :
  flag ∉ argv -> JsLib.argAfter argv flag = None.
Proof. intros H. unfold JsLib.argAfter. now rewrite indexOf_absent. Qed.

Lemma argAfter_value (pre post : list string) (flag value : string) :
  flag ∉ pre -> JsLib.argAfter (pre ++ flag :: value :: post) flag = Some value.
Proof.
  intros H. unfold JsLib.argAfter. rewrite (indexOf_first pre _ flag H).
  assert (Hlt : (length pre <? length (pre ++ flag :: value :: post) - 1) = true).
  { apply Nat.ltb_lt. rewrite length_app. cbn [length]. lia. }
  rewrite Hlt.
  change (pre ++ flag :: value :: post) with (pre ++ [flag] ++ value :: post).
  rewrite app_assoc. apply list_lookup_middle. rewrite length_app. cbn. lia.
Qed.

Lemma argAfter_last (pre : list string) (flag : string) :
  flag ∉ pre -> JsLib.argAfter (pre ++ [flag]) flag = None.
Proof.
  intros H. unfold JsLib.argAfter. rewrite (indexOf_first pre _ flag H).
  assert (Hlt : (length pre <? length (pre ++ [flag]) - 1) = false).
  { apply Nat.ltb_ge. rewrite length_app. cbn [length]. lia. }
  now rewrite Hlt.
Qed.

(** X23.  Where the configuration path comes from.  A non-empty
    [MCP_CONFIG_PATH] wins over the command line and the default files.
    Without it, the argument after the first [--config-path] is taken, also
    when no such file exists; a [--config-path] that is the last argument is
    ignored.  Otherwise the first default file that exists is taken,
    ["./mcp-config.json"] before the one in the working directory, and with
    none there is no path. *)
Theorem findConfigPath_precedence (p : Startup.Process) :
  (forall path : string,
      Startup.envConfigPath p = Some path -> Js.truthy path = true ->
      Startup.findConfigPath p = Some path)
  /\ ((Startup.envConfigPath p = None \/ Startup.envConfigPath p = Some "") ->
      (forall (pre post : list string) (value : string),
          Startup.argv p = pre ++ "--config-path" :: value :: post ->
          "--config-path" ∉ pre ->
          Startup.findConfigPath p = Some value)
      /\ (("--config-path" ∉ Startup.argv p
           \/ exists pre, Startup.argv p = pre ++ ["--config-path"]
                          /\ "--config-path" ∉ pre) ->
          Startup.findConfigPath p
          = if Startup.existsSync p "./mcp-config.json"
            then Some "./mcp-config.json"
            else if Startup.existsSync p
                      (Startup.pathJoin p (Startup.cwd p) "mcp-config.json")
                 then Some (Startup.pathJoin p (Startup.cwd p) "mcp-config.json")
                 else None)).
Proof.
  split.
  - intros path Henv Htruthy. unfold Startup.findConfigPath. now rewrite Henv, Htruthy.
  - intros Henv.
    assert (Hfrom : Startup.findConfigPath p
                    = match JsLib.argAfter (Startup.argv p) "--config-path" with
                      | Some path => Some path
                      | None => List.find (Startup.existsSync p) (Startup.defaultPaths p)
                      end).
    { unfold Startup.findConfigPath. now destruct Henv as [-> | ->]. }
    split.
    + intros pre post value Hargv Hpre.
      now rewrite Hfrom, Hargv, (argAfter_value pre post _ value Hpre).
    + intros Hflag. rewrite Hfrom.
      assert (Hnone : JsLib.argAfter (Startup.argv p) "--config-path" = None).
      { destruct Hflag as [Habs | (pre & -> & Hpre)];
          [now apply argAfter_absent | now apply argAfter_last]. }
      rewrite Hnone. reflexivity.
Qed.

Lemma findConfigPath_precedence_witness :
  let p := {| Startup.envConfigPath := Some "";
              Startup.argv := ["node"; "hub.js"; "--config-path"];
              Startup.cwd := "/srv";
              Startup.pathJoin := fun a b => a +:+ "/" +:+ b;
              Startup.existsSync := String.eqb "/srv/mcp-config.json" |} in
  Startup.findConfigPath p = Some "/srv/mcp-config.json".
Proof.
  intros p.
  destruct (findConfigPath_precedence p) as [_ H].
  destruct (H (or_intror eq_refl)) as [_ H'].
  rewrite H'; [reflexivity |].
  right. exists ["node"; "hub.js"]. split; [reflexivity |].
  rewrite !elem_of_cons, elem_of_nil. intuition discriminate.
Defined.

Lemma split_not_nil (sep : ascii) (s : string) : JsLib.split sep s <> [].
Proof.
  destruct s as [|c s]; simpl; [discriminate |].
  destruct (Ascii.eqb c sep); [discriminate |].
  destruct (JsLib.split sep s); discriminate.
Qed.

Lemma join_cons (sep : ascii) (piece : string) (pieces : list string) :
  pieces <> [] ->
  JsLib.join sep (piece :: pieces) = piece +:+ String sep (JsLib.join sep pieces).
Proof. destruct pieces; [congruence | reflexivity]. Qed.

Lemma join_split (sep : ascii) (s : string) : JsLib.join sep (JsLib.split sep s) = s.
Proof.
  induction s as [|c s IH]; [reflexivity |].
  cbn [JsLib.split]. destruct (Ascii.eqb c sep) eqn:E.
  - apply Ascii.eqb_eq in E. subst c.
    rewrite (join_cons sep "" _ (split_not_nil sep s)), IH. reflexivity.
  - pose proof (split_not_nil sep s) as Hne.
    destruct (JsLib.split sep s) as [|piece pieces]; [congruence |].
    destruct pieces as [|piece' pieces].
    + cbn in IH |- *. now rewrite IH.
    + rewrite join_cons by discriminate. rewrite join_cons in IH by discriminate.
      cbn [String.append]. now rewrite IH.
Qed.

Lemma split_pieces (sep : ascii) (s : string) :
  Forall (fun piece => contains sep piece = false) (JsLib.split sep s).
Proof.
  induction s as [|c s IH]; cbn [JsLib.split].
  - repeat constructor.
  - destruct (Ascii.eqb c sep) eqn:E; [constructor; [reflexivity | exact IH] |].
    destruct (JsLib.split sep s) as [|piece pieces]; [repeat constructor; cbn; now rewrite E |].
    apply Forall_cons in IH. destruct IH as [Hp Hps].
    constructor; [cbn; now rewrite E, Hp | exact Hps].
Qed.

Lemma split_piece_then (sep : ascii) (piece rest : string) :
  contains sep piece = false ->
  JsLib.split sep (piece +:+ String sep rest) = piece :: JsLib.split sep rest.
Proof.
  induction piece as [|c piece IH]; intros H.
  - cbn. now rewrite Ascii.eqb_refl.
  - cbn [contains] in H. apply orb_false_iff in H. destruct H as [Hc H].
    cbn [String.append JsLib.split]. rewrite Hc, (IH H). reflexivity.
Qed.

Lemma split_one_piece (sep : ascii) (piece : string) :
  contains sep piece = false -> JsLib.split sep piece = [piece].
Proof.
  induction piece as [|c piece IH]; intros H; [reflexivity |].
  cbn [contains] in H. apply orb_false_iff in H. destruct H as [Hc H].
  cbn [JsLib.split]. now rewrite Hc, (IH H).
Qed.

(** X24.  Splitting a comma-separated argument.  Joining the pieces with
    commas gives the argument back; no piece contains a comma; there is
    always at least one piece (the empty argument gives one empty pattern);
    and a non-empty list of patterns without commas, joined with commas, is
    split into that same list. *)
Theorem split_join_round_trip (sep : ascii) :
  (forall s : string,
      JsLib.join sep (JsLib.split sep s) = s
      /\ JsLib.split sep s <> []
      /\ Forall (fun piece => contains sep piece = false) (JsLib.split sep s))
  /\ (forall pieces : list string,
         pieces <> [] ->
         Forall (fun piece => contains sep piece = false) pieces ->
         JsLib.split sep (JsLib.join sep pieces) = pieces).
Proof.
  split.
  - intros s. split; [apply join_split |]. split; [apply split_not_nil | apply split_pieces].
  - induction pieces as [|piece pieces IH]; intros Hne Hall; [congruence |].
    apply Forall_cons in Hall. destruct Hall as [Hp Hps].
    destruct pieces as [|piece' pieces].
    + cbn. now apply split_one_piece.
    + rewrite join_cons by discriminate.
      rewrite (split_piece_then sep piece _ Hp). f_equal.
      apply IH; [discriminate | exact Hps].
Qed.

Lemma split_join_round_trip_witness :
  JsLib.split "," (JsLib.join "," ["read*"; "write*"; "jira."]) = ["read*"; "write*"; "jira."]
  /\ JsLib.split "," "" = [""].
Proof.
  split; [|reflexivity].
  apply (proj2 (split_join_round_trip ",")); [discriminate |].
  repeat constructor.
Defined.

(** X25.  The filter flags of the command line.  A flag counts only as an
    argument of its own followed by another argument: when neither
    [--include-tools] nor [--exclude-tools] is an argument there are no
    global rules from the command line (so a single argument of the form
    [--include-tools=...] sets none).  The argument after the first
    [--include-tools] is split at the commas into the include list, which is
    never empty and therefore always in force; likewise for
    [--exclude-tools]. *)
Theorem parseFilterArgs_flags (argv : list string) :
  ("--include-tools" ∉ argv -> "--exclude-tools" ∉ argv ->
   Startup.parseFilterArgs argv = None)
  /\ (forall (pre post : list string) (value : string),
         argv = pre ++ "--include-tools" :: value :: post ->
         "--include-tools" ∉ pre ->
         exists filterConfig : ToolFilterConfig,
           Startup.parseFilterArgs argv = Some filterConfig
           /\ include filterConfig = Some (JsLib.split "," value)
           /\ activeList (include filterConfig) = Some (JsLib.split "," value))
  /\ (forall (pre post : list string) (value : string),
         argv = pre ++ "--exclude-tools" :: value :: post ->
         "--exclude-tools" ∉ pre ->
         exists filterConfig : ToolFilterConfig,
           Startup.parseFilterArgs argv = Some filterConfig
           /\ exclude filterConfig = Some (JsLib.split "," value)
           /\ activeList (exclude filterConfig) = Some (JsLib.split "," value)).
Proof.
  assert (Hactive : forall value, activeList (Some (JsLib.split "," value))
                                  = Some (JsLib.split "," value)).
  { intros value. pose proof (split_not_nil "," value) as Hne.
    now destruct (JsLib.split "," value). }
  split; [|split].
  - intros Hi He. unfold Startup.parseFilterArgs.
    now rewrite (argAfter_absent _ _ Hi), (argAfter_absent _ _ He).
  - intros pre post value -> Hpre. unfold Startup.parseFilterArgs.
    rewrite (argAfter_value pre post _ value Hpre). cbn [fmap option_fmap option_map].
    eexists. split; [reflexivity |]. split; [reflexivity | apply Hactive].
  - intros pre post value -> Hpre. unfold Startup.parseFilterArgs.
    rewrite (argAfter_value pre post _ value Hpre). cbn [fmap option_fmap option_map].
    destruct (JsLib.split "," <$> JsLib.argAfter _ "--include-tools");
      (eexists; split; [reflexivity |]; split; [reflexivity | apply Hactive]).
Qed.

Lemma parseFilterArgs_flags_witness :
  Startup.parseFilterArgs ["node"; "hub.js"; "--include-tools=read*,write*"] = None
  /\ Startup.parseFilterArgs ["node"; "hub.js"; "--include-tools"; "read*,write*"]
     = Some (rules (Some ["read*"; "write*"]) None).
Proof.
  split.
  - apply (proj1 (parseFilterArgs_flags _));
      rewrite !elem_of_cons, elem_of_nil; intuition discriminate.
  - destruct (proj1 (proj2 (parseFilterArgs_flags
                              ["node"; "hub.js"; "--include-tools"; "read*,write*"]))
                     ["node"; "hub.js"] [] "read*,write*" eq_refl)
      as (cfg & Hcfg & _).
    + rewrite !elem_of_cons, elem_of_nil. intuition discriminate.
    + reflexivity.
Defined.




(* ===================================================================== *)
(** * The two tools of the hub                                            *)
(* ===================================================================== *)

Lemma listTools_connected (w : World) (m : McpServerManager) (serverName : string)
  (client : Client) :
  JsMap.get (clients m) serverName = Some client ->
  listTools w serverName m
  = (match listToolsOutcome w client with
     | inr tools => Normal (applyFilters m tools serverName)
     | inl cause => Throw (Rejected cause)
     end, m, [ClientListTools client]).
Proof.
  intros H. run. rewrite H. cbn.
  now destruct (listToolsOutcome w client).
Qed.

Lemma toolsEntryFor_connected (w : World) (m : McpServerManager)
  (serverName : string) (client : Client) :
  JsMap.get (clients m) serverName = Some client ->
  toolsEntryFor w serverName m
  = (Normal (entryOf w m serverName client), m, [ClientListTools client]).
Proof.
  intros H. unfold toolsEntryFor, tryCatch, entryOf.
  cbv beta delta [mbind mret M_bind M_ret bind ret]. cbn beta.
  rewrite (listTools_connected w m serverName client H).
  now destruct (listToolsOutcome w client).
Qed.

Lemma collectAllTools_connected (w : World) (m : McpServerManager)
  (l : list (string * Client)) :
  (forall n c, (n, c) ∈ l -> JsMap.get (clients m) n = Some c) ->
  collectAllTools w (JsMap.keys l) m
  = (Normal (map (fun nc => (nc.1, entryOf w m nc.1 nc.2)) l), m,
     map (fun nc => ClientListTools nc.2) l).
Proof.
  induction l as [|[n c] l IH]; intros Hl; [reflexivity |].
  cbn [JsMap.keys map fst snd collectAllTools].
  cbv beta delta [mbind mret M_bind M_ret bind ret]. cbn beta.
  rewrite (toolsEntryFor_connected w m n c) by (apply Hl; now left).
  cbn beta iota.
  change (map fst l) with (JsMap.keys l).
  rewrite IH by (intros n' c' H; apply Hl; now right).
  cbn beta iota. now rewrite app_nil_r.
Qed.

Lemma get_of_member {V : Type} (l : list (string * V)) (n : string) (v : V) :
  NoDup (JsMap.keys l) -> (n, v) ∈ l -> JsMap.get l n = Some v.
Proof.
  induction l as [|[k0 v0] l IH]; intros Hnd Hin; [inversion Hin |].
  cbn [JsMap.keys map fst] in Hnd. apply NoDup_cons in Hnd. destruct Hnd as [Hnot Hnd].
  apply elem_of_cons in Hin. simpl. destruct Hin as [[= <- <-] | Hin].
  - now rewrite String.eqb_refl.
  - destruct (String.eqb k0 n) eqn:E; [|now apply IH].
    apply String.eqb_eq in E. subst k0. exfalso. apply Hnot.
    unfold JsMap.keys. change (map fst l) with (l.*1).
    apply list_elem_of_fmap. now exists (n, v).
Qed.

(** X27.  [list-all-tools] never fails as a whole.  With no server it
    answers "No connected servers.".  Otherwise it asks every registered
    server once, in the order of registration, and answers with one entry
    per server: the filtered listing of the server, or, for a server whose
    listing fails, the error "Failed to get tools list: <cause>", which stops
    no other server.  The answer is never marked as an error. *)
Theorem listAllTools_one_entry_per_server (w : World) (m : McpServerManager) :
  wellFormed m ->
  listAllToolsHandler w m
  = (Normal
       {| content :=
            match clients m with
            | [] => Text "No connected servers."
            | _ => JsonOfAllTools
                     (map (fun nc => (nc.1, entryOf w m nc.1 nc.2)) (clients m))
            end;
          isError := false |},
     m,
     map (fun nc => ClientListTools nc.2) (clients m)).
Proof.
  intros Hwf. unfold listAllToolsHandler, tryCatch, getConnectedServers.
  cbv beta delta [mbind mret M_bind M_ret bind ret this]. cbn beta iota.
  destruct (clients m) as [|[n c] l] eqn:E; [reflexivity |].
  cbn [JsMap.keys map fst].
  change (n :: map fst l) with (JsMap.keys ((n, c) :: l)).
  rewrite (collectAllTools_connected w m ((n, c) :: l)).
  - cbn beta iota. cbn [app]. now rewrite ?app_nil_r.
  - intros n' c' Hin. rewrite E. apply get_of_member; [|exact Hin].
    unfold wellFormed in Hwf. now rewrite E in Hwf.
Qed.

(** Two servers, the first of which fails to list: its entry is the error,
    the second has its listing. *)
Lemma listAllTools_one_entry_per_server_witness :
  let w0 := world [] [] in
  let a := newClient w0 "a" (launch "node" None) in
  let b := newClient w0 "b" (launch "deno" None) in
  let w := {| processEnv := processEnv w0; findConfigPath := findConfigPath w0;
              readConfig := readConfig w0; connectOutcome := connectOutcome w0;
              closeOutcome := closeOutcome w0;
              listToolsOutcome := fun c =>
                if String.eqb (clientName c) "mcp-client-a" then inl "timeout"
                else inr (ToolList [tool_foo] []);
              callToolOutcome := callToolOutcome w0 |} in
  let m := with_clients [("a", a); ("b", b)] emptyManager in
  (listAllToolsHandler w m).1.1
  = Normal {| content :=
                JsonOfAllTools
                  [("a", Failure "Failed to get tools list: timeout");
                   ("b", Listing (ToolList [tool_foo] []))];
              isError := false |}.
Proof.
  intros w0 a b w m.
  rewrite (listAllTools_one_entry_per_server w m); [reflexivity |].
  unfold wellFormed. cbn. repeat (apply NoDup_cons_2 || apply NoDup_nil_2);
    rewrite ?elem_of_cons, ?elem_of_nil; intuition discriminate.
Defined.

(** X28.  [call-tool] never throws: it answers.  For a name without a
    handle the answer is the error text "Tool call failed: Not connected to
    server '<name>'."; for a registered server it is the result of the
    child's tool, or, when the child rejects, "Tool call failed: <cause>"
    marked as an error.  The rules of the filters play no part. *)
Theorem callToolHandler_answers (w : World) (m : McpServerManager)
  (serverName toolName : string) (toolArgs : list (string * JsValue)) :
  callToolHandler w serverName toolName toolArgs m
  = match JsMap.get (clients m) serverName with
    | None =>
        (Normal {| content :=
                     Text ("Tool call failed: Not connected to server '"
                             +:+ serverName +:+ "'.");
                   isError := true |}, m, [])
    | Some client =>
        (Normal
           match callToolOutcome w client toolName toolArgs with
           | inr result => {| content := JsonOfResult result; isError := false |}
           | inl cause =>
               {| content := Text ("Tool call failed: " +:+ cause); isError := true |}
           end, m, [ClientCallTool client toolName toolArgs])
    end.
Proof.
  unfold callToolHandler, tryCatch. run.
  destruct (JsMap.get (clients m) serverName) as [client|]; cbn; [|reflexivity].
  now destruct (callToolOutcome w client toolName toolArgs).
Qed.

(** X29.  The manager of the entry point.  It is built with [autoLoad] and
    the rules of the command line.  Without a configuration path it is an
    empty manager with those rules.  With a readable document the rules of
    the command line stay only if the document has no [globalFilters]: a
    document that has them replaces the command line's rules as a whole. *)
Theorem serverManager_global_rules (w : World) (argv : list string) :
  (findConfigPath w = None ->
   Startup.serverManager w argv
   = ({| clients := []; configPath := None; serverFilters := ∅;
         globalFilters := Startup.parseFilterArgs argv |}, []))
  /\ (forall (path : string) (config : McpConfig),
         findConfigPath w = Some path ->
         Js.truthy path = true ->
         readConfig w path = inr config ->
         globalFilters (Startup.serverManager w argv).1
         = match Types.globalFilters config with
           | Some g => Some g
           | None => Startup.parseFilterArgs argv
           end).
Proof.
  split.
  - intros Hnone. unfold Startup.serverManager, construct, newManager.
    cbn [mbind option_bind o_configPath o_globalFilters Js.orElse configPath].
    now rewrite Hnone.
  - intros path config Hfound Htruthy Hread. unfold Startup.serverManager.
    rewrite (construct_globalFilters w _ path config); [reflexivity | reflexivity | | | ];
      cbn [o_configPath Js.orElse]; assumption.
Qed.

Lemma serverManager_global_rules_witness :
  let doc := {| mcpServers := None;
                Types.globalFilters := Some (rules None (Some ["delete*"])) |} in
  let w0 := withConfig doc (world [] []) in
  let w := {| processEnv := processEnv w0; findConfigPath := Some "./mcp-config.json";
              readConfig := readConfig w0; connectOutcome := connectOutcome w0;
              closeOutcome := closeOutcome w0; listToolsOutcome := listToolsOutcome w0;
              callToolOutcome := callToolOutcome w0 |} in
  globalFilters (Startup.serverManager w ["node"; "hub.js"; "--include-tools"; "read*"]).1
  = Some (rules None (Some ["delete*"])).
Proof.
  intros doc w0 w.
  exact (proj2 (serverManager_global_rules w _) "./mcp-config.json" doc
           eq_refl eq_refl eq_refl).
Defined.

Lemma applyFiltersTo_keeps (m : McpServerManager) (tools : list Tool)
  (serverName : string) :
  applyFiltersTo m tools serverName
  = List.filter
      (fun tool =>
         from_option (fun r => keeps r tool) true (serverFilters m !! serverName)
         && from_option (fun r => keeps r tool) true (globalFilters m))
      tools.
Proof.
  unfold applyFiltersTo. cbv zeta.
  destruct (serverFilters m !! serverName) as [per|], (globalFilters m) as [glob|];
    rewrite ?filterToolsByConfig_keeps; cbn [from_option].
  - apply filter_filter_andb.
  - apply filter_ext_eq. intros x. now rewrite andb_true_r.
  - reflexivity.
  - symmetry. apply filter_true.
Qed.

(** X30.  The listing of a registered server.  [listTools] asks the child
    once and changes nothing in the manager.  A response with a list of
    tools comes back with the same other fields and with the tools that pass
    both the rules stored for the server and the global rules (a missing
    rule set lets every tool pass); a response of another shape comes back
    as it is, whatever the rules; a rejection of the child is thrown on
    unchanged. *)
Theorem listTools_of_registered_server (w : World) (m : McpServerManager)
  (serverName : string) (client : Client) :
  JsMap.get (clients m) serverName = Some client ->
  listTools w serverName m
  = (match listToolsOutcome w client with
     | inr (ToolList tools others) =>
         Normal
           (ToolList
              (List.filter
                 (fun tool =>
                    from_option (fun r => keeps r tool) true
                      (serverFilters m !! serverName)
                    && from_option (fun r => keeps r tool) true (globalFilters m))
                 tools)
              others)
     | inr (OtherShape v) => Normal (OtherShape v)
     | inl cause => Throw (Rejected cause)
     end, m, [ClientListTools client]).
Proof.
  intros Hget. rewrite (listTools_connected w m serverName client Hget).
  destruct (listToolsOutcome w client) as [cause | [v | tools others]];
    [reflexivity | reflexivity |].
  cbn [applyFilters]. now rewrite applyFiltersTo_keeps.
Qed.

Lemma listTools_of_registered_server_witness :
  let w := world [] [] in
  let client := newClient w "srv" (launch "node" None) in
  let m := with_globalFilters (Some (rules (Some ["*a*"]) None))
             (with_clients [("srv", client)] emptyManager) in
  listTools w "srv" m = (Normal (ToolList [tool_bar] []), m, [ClientListTools client]).
Proof.
  intros w client m.
  now rewrite (listTools_of_registered_server w m "srv" client eq_refl).
Defined.
